(** * Verification of two tiflow components

    - [cdc/sink/codec/canal_flat.go]: the Canal flat (Canal-JSON) encoder and
      decoder, embedded function by function.
    - the optimistic shard-DDL coordinator exercised by
      [dm/dm/master/shardddl/optimist_test.go]: the scenario data of the test
      file is embedded as it is written there; the engine the test drives
      ([Optimist], [Lock], [sortInfos]) lives in files outside this source
      tree and is modelled from the specification.

    Part I holds the definitions, Part II the lemmas and theorems. *)

From stdpp Require Import gmap strings list fin_maps sorting.
From Stdlib Require Import ZArith.

Local Open Scope Z_scope.

(* ===================================================================== *)
(** * Part I. Definitions *)
(* ===================================================================== *)

(** ** Go results

    A Go function of type [(T, error)] either returns a value, returns an
    error, or panics ([log.Panic], an index out of range, a nil pointer). *)

Inductive cerror : Type :=
  | ErrCanalEncodeFailed (cause : string)
  | ErrCanalDecodeFailed (msg : string)
  | ErrTrace (cause : string).

Inductive result (A : Type) : Type :=
  | Ok (a : A)
  | Err (e : cerror)
  | Panic (msg : string).

Arguments Ok {A} a.
Arguments Err {A} e.
Arguments Panic {A} msg.

Definition result_bind {A B} (m : result A) (k : A → result B) : result B :=
  match m with
  | Ok a => k a
  | Err e => Err e
  | Panic s => Panic s
  end.

Global Instance result_mbind : MBind result := fun A B k m => result_bind m k.
Global Instance result_mret : MRet result := fun A a => Ok a.

(** ** The canal package: data *)

Module Canal.

(** [tidbWaterMarkType] *)
Definition tidbWaterMarkType : string := "TIDB_WATERMARK".

(** A datum of a row, [interface{}] in Go. The values modelled are those
    the source names: ["A Datum should be a string or nil"]. *)
Definition datum : Type := option string.

(** [map[string]interface{}]: [None] is the nil map. *)
Definition rowmap : Type := option (gmap string datum).

(** [canalFlatMessage]; a nil slice or nil map is [None]. *)
Record canalFlatMessage : Type := {
  ID : Z;                                   (* json:"id", ignored by consumers *)
  Schema : string;                          (* json:"database" *)
  Table : string;                           (* json:"table" *)
  PKNames : option (list string);           (* json:"pkNames" *)
  IsDDL : bool;                             (* json:"isDdl" *)
  EventType : string;                       (* json:"type" *)
  ExecutionTime : Z;                        (* json:"es" *)
  BuildTime : Z;                            (* json:"ts" *)
  Query : string;                           (* json:"sql" *)
  SQLType : option (gmap string Z);         (* json:"sqlType" *)
  MySQLType : option (gmap string string);  (* json:"mysqlType" *)
  Data : option (list rowmap);              (* json:"data" *)
  Old : option (list rowmap);               (* json:"old" *)
  tikvTs : Z                                (* not exported, not marshalled *)
}.

(** [tidbExtension] *)
Record tidbExtension : Type := {
  CommitTs : Z;       (* json:"commitTs,omitempty" *)
  WatermarkTs : Z     (* json:"watermarkTs,omitempty" *)
}.

(** [canalFlatMessageWithTiDBExtension]: the embedded message is set by every
    constructor of the file; [Extensions] is a pointer that
    [NextResolvedEvent] leaves nil before unmarshalling. *)
Record canalFlatMessageWithTiDBExtension : Type := {
  embedded : canalFlatMessage;
  Extensions : option tidbExtension          (* json:"_tidb" *)
}.

(** [canalFlatMessageInterface] with its two implementations. *)
Inductive canalFlatMessageInterface : Type :=
  | Flat (c : canalFlatMessage)
  | FlatWithTiDBExtension (c : canalFlatMessageWithTiDBExtension).

Definition base (m : canalFlatMessageInterface) : canalFlatMessage :=
  match m with
  | Flat c => c
  | FlatWithTiDBExtension c => embedded c
  end.

(** The methods of the interface. *)
Definition getTikvTs (m : canalFlatMessageInterface) : Z := tikvTs (base m).
Definition getSchema (m : canalFlatMessageInterface) : string := Schema (base m).
Definition getTable (m : canalFlatMessageInterface) : string := Table (base m).

(** ["for canalFlatMessage, we lost the commitTs"]; with the extension the
    method dereferences [Extensions]. *)
Definition getCommitTs (m : canalFlatMessageInterface) : result Z :=
  match m with
  | Flat _ => Ok 0
  | FlatWithTiDBExtension c =>
      match Extensions c with
      | Some x => Ok (CommitTs x)
      | None => Panic "nil pointer dereference"
      end
  end.

Definition getQuery (m : canalFlatMessageInterface) : string := Query (base m).

(** [c.Old[0]] and [c.Data[0]] panic on an empty, non-nil slice. *)
Definition first_row (rows : option (list rowmap)) : result rowmap :=
  match rows with
  | None => Ok None
  | Some (r :: _) => Ok r
  | Some [] => Panic "index out of range"
  end.

Definition getOld (m : canalFlatMessageInterface) : result rowmap :=
  first_row (Old (base m)).
Definition getData (m : canalFlatMessageInterface) : result rowmap :=
  first_row (Data (base m)).
Definition getMySQLType (m : canalFlatMessageInterface) : option (gmap string string) :=
  MySQLType (base m).
Definition getJavaSQLType (m : canalFlatMessageInterface) : option (gmap string Z) :=
  SQLType (base m).

(** The value an encoded message carries under JSON key ["id"]: the [ID]
    field has tag [json:"id"] without [omitempty], and the embedded struct's
    fields are promoted, so both implementations always marshal it. *)
Definition json_id (m : canalFlatMessageInterface) : option Z := Some (ID (base m)).

(** [canal.Column], [canal.RowData] and [canal.Header] of the generated
    protocol package, with the fields this file reads. *)
Record canalColumn : Type := {
  cName : string;
  cSqlType : Z;
  cMysqlType : string;
  cValue : string;
  cIsNull : bool
}.

Record RowData : Type := {
  BeforeColumns : list canalColumn;
  AfterColumns : list canalColumn
}.

Record Header : Type := {
  hSchemaName : string;
  hTableName : string;
  hEventType : Z;
  ExecuteTime : Z
}.

(** [model.TableName] / [model.SimpleTableInfo], [model.RowChangedEvent] and
    [model.DDLEvent], with the fields this file reads or writes. [column] is
    [model.Column]. *)
Record TableName : Type := { tnSchema : string; tnTable : string }.

Record RowChangedEvent (column : Type) : Type := {
  rCommitTs : Z;
  rTable : TableName;
  rColumns : option (list column);
  rPreColumns : option (list column)
}.
Arguments rCommitTs {column} _.
Arguments rTable {column} _.
Arguments rColumns {column} _.
Arguments rPreColumns {column} _.

Record DDLEvent : Type := {
  dCommitTs : Z;
  dTableInfo : TableName;
  dQuery : string
}.

(** What the file uses of other packages and files of the repository
    ([cdc/model], [canal_entry.go], [mq.go], [encoding/json], the parser's
    [types]); none of it is in this source tree, so it is a parameter. A
    function that returns no error in Go is a function here: what is proved
    of a result of [decodeCanalJSONColumn] holds when the call returns. *)
Class Env : Type := {
  column : Type;                                   (* model.Column *)
  columnName : column → string;                    (* its Name field *)
  MQMessage : Type;
  IsDelete : RowChangedEvent column → bool;
  IsInsert : RowChangedEvent column → bool;
  IsUpdate : RowChangedEvent column → bool;
  PrimaryKeyColumns : RowChangedEvent column → list column;
  convertRowEventType : RowChangedEvent column → Z;
  convertDdlEventType : DDLEvent → Z;
  eventTypeString : Z → string;                    (* EventType.String() *)
  buildHeader : Z → string → string → Z → Z → Header;
  buildRowData : RowChangedEvent column → result RowData;
  convertToCanalTs : Z → Z;
  jsonMarshal : canalFlatMessageInterface → result string;
  jsonUnmarshalFlat : string → canalFlatMessage → result canalFlatMessage;
  jsonUnmarshalExt : string → canalFlatMessageWithTiDBExtension →
                     result canalFlatMessageWithTiDBExtension;
  newResolvedMQMessage : string → Z → MQMessage;
  newDDLMQMessage : string → DDLEvent → MQMessage;
  trimUnsignedFromMySQLType : string → string;
  StrToType : string → Z;
  decodeCanalJSONColumn : string → datum → Z → Z → column
}.

(** [CanalFlatEventBatchEncoder]; the builder is stateless and part of [Env]. *)
Record CanalFlatEventBatchEncoder : Type := {
  messageBuf : list canalFlatMessageInterface;
  enableTiDBExtension : bool
}.

Definition NewCanalFlatEventBatchEncoder : CanalFlatEventBatchEncoder :=
  {| messageBuf := []; enableTiDBExtension := false |}.

(** The loops that fill [sqlType], [mysqlType], [oldData] and [data]:
    later columns of the same name overwrite earlier ones. *)
Definition sqlTypes (cols : list canalColumn) : gmap string Z :=
  foldl (fun m c => <[cName c := cSqlType c]> m) ∅ cols.
Definition mysqlTypes (cols : list canalColumn) : gmap string string :=
  foldl (fun m c => <[cName c := cMysqlType c]> m) ∅ cols.
Definition columnData (cols : list canalColumn) : rowmap :=
  match cols with
  | [] => None
  | _ => Some (foldl (fun m c =>
                 <[cName c := if cIsNull c then None else Some (cValue c)]> m) ∅ cols)
  end.

Section Encoder.
Context `{Env}.

(** [newFlatMessageForDML]; [now] is [time.Now().UnixNano()]. *)
Definition newFlatMessageForDML (c : CanalFlatEventBatchEncoder) (now : Z)
    (e : RowChangedEvent column) : result canalFlatMessageInterface :=
  let eventType := convertRowEventType e in
  let header := buildHeader (rCommitTs e) (tnSchema (rTable e)) (tnTable (rTable e))
                            eventType 1 in
  match buildRowData e with
  | Err _ => Err (ErrCanalEncodeFailed "buildRowData")
  | Panic s => Panic s
  | Ok rowData =>
    let pkNames := map columnName (PrimaryKeyColumns e) in
    let nonTrivialRow :=
      if IsDelete e then BeforeColumns rowData else AfterColumns rowData in
    let sqlType := sqlTypes nonTrivialRow in
    let mysqlType := mysqlTypes nonTrivialRow in
    let oldData := columnData (BeforeColumns rowData) in
    let data := columnData (AfterColumns rowData) in
    let flatMessage (d : list rowmap) (o : option (list rowmap)) :=
      {| ID := 0;
         Schema := hSchemaName header;
         Table := hTableName header;
         PKNames := Some pkNames;
         IsDDL := false;
         EventType := eventTypeString (hEventType header);
         ExecutionTime := ExecuteTime header;
         BuildTime := Z.quot now 1000000;
         Query := "";
         SQLType := Some sqlType;
         MySQLType := Some mysqlType;
         Data := Some d;
         Old := o;
         tikvTs := rCommitTs e |} in
    let filled : result canalFlatMessage :=
      if IsDelete e then Ok (flatMessage [oldData] None)
      else if IsInsert e then Ok (flatMessage [data] None)
      else if IsUpdate e then Ok (flatMessage [data] (Some [oldData]))
      else Panic "unreachable event type" in
    m ← filled;
    if negb (enableTiDBExtension c) then Ok (Flat m)
    else Ok (FlatWithTiDBExtension
               {| embedded := m;
                  Extensions := Some {| CommitTs := rCommitTs e; WatermarkTs := 0 |} |})
  end.

(** [newFlatMessageForDDL] *)
Definition newFlatMessageForDDL (c : CanalFlatEventBatchEncoder) (now : Z)
    (e : DDLEvent) : canalFlatMessageInterface :=
  let header := buildHeader (dCommitTs e) (tnSchema (dTableInfo e)) (tnTable (dTableInfo e))
                            (convertDdlEventType e) 1 in
  let flatMessage :=
    {| ID := 0;
       Schema := hSchemaName header;
       Table := hTableName header;
       PKNames := None;
       IsDDL := true;
       EventType := eventTypeString (hEventType header);
       ExecutionTime := ExecuteTime header;
       BuildTime := Z.quot now 1000000;
       Query := dQuery e;
       SQLType := None;
       MySQLType := None;
       Data := None;
       Old := None;
       tikvTs := dCommitTs e |} in
  if negb (enableTiDBExtension c) then Flat flatMessage
  else FlatWithTiDBExtension
         {| embedded := flatMessage;
            Extensions := Some {| CommitTs := dCommitTs e; WatermarkTs := 0 |} |}.

(** [newFlatMessage4CheckpointEvent] *)
Definition newFlatMessage4CheckpointEvent (c : CanalFlatEventBatchEncoder) (now : Z)
    (ts : Z) : canalFlatMessageWithTiDBExtension :=
  {| embedded :=
       {| ID := 0;
          Schema := "";
          Table := "";
          PKNames := None;
          IsDDL := false;
          EventType := tidbWaterMarkType;
          ExecutionTime := convertToCanalTs ts;
          BuildTime := Z.quot now 1000000;
          Query := "";
          SQLType := None;
          MySQLType := None;
          Data := None;
          Old := None;
          tikvTs := 0 |};
     Extensions := Some {| CommitTs := 0; WatermarkTs := ts |} |}.

(** [EncodeCheckpointEvent]: [Ok None] is the pair [(nil, nil)]. *)
Definition EncodeCheckpointEvent (c : CanalFlatEventBatchEncoder) (now : Z)
    (ts : Z) : result (option MQMessage) :=
  if negb (enableTiDBExtension c) then Ok None
  else
    let msg := newFlatMessage4CheckpointEvent c now ts in
    match jsonMarshal (FlatWithTiDBExtension msg) with
    | Err _ => Err (ErrCanalEncodeFailed "json.Marshal")
    | Panic s => Panic s
    | Ok value => Ok (Some (newResolvedMQMessage value ts))
    end.

(** [AppendRowChangedEvent]: the encoder after the call, or the error. *)
Definition AppendRowChangedEvent (c : CanalFlatEventBatchEncoder) (now : Z)
    (e : RowChangedEvent column) : result CanalFlatEventBatchEncoder :=
  match newFlatMessageForDML c now e with
  | Err _ => Err (ErrTrace "newFlatMessageForDML")
  | Panic s => Panic s
  | Ok message =>
      Ok {| messageBuf := messageBuf c ++ [message];
            enableTiDBExtension := enableTiDBExtension c |}
  end.

(** [EncodeDDLEvent] *)
Definition EncodeDDLEvent (c : CanalFlatEventBatchEncoder) (now : Z)
    (e : DDLEvent) : result (option MQMessage) :=
  let message := newFlatMessageForDDL c now e in
  match jsonMarshal message with
  | Err _ => Err (ErrCanalEncodeFailed "json.Marshal")
  | Panic s => Panic s
  | Ok value => Ok (Some (newDDLMQMessage value e))
  end.

(** [canalFlatJSONColumnMap2SinkColumns]: the map is ranged over in the
    order of [map_to_list]; the result is sorted by name, descending. *)
Definition name_ge (a b : column) : Prop := String.le (columnName b) (columnName a).

Global Instance name_ge_dec : RelDecision name_ge.
Proof. intros a b. unfold name_ge. apply _. Defined.

Definition lookup_type {V} (m : option (gmap string V)) (name : string) : option V :=
  match m with
  | None => None
  | Some m => m !! name
  end.

Fixpoint decodeColumns (cols : list (string * datum))
    (mysqlType : option (gmap string string)) (javaSQLType : option (gmap string Z))
    : result (list column) :=
  match cols with
  | [] => Ok []
  | (name, value) :: rest =>
      match lookup_type javaSQLType name with
      | None => Err (ErrCanalDecodeFailed "java sql type does not found")
      | Some javaType =>
          match lookup_type mysqlType name with
          | None => Err (ErrCanalDecodeFailed "mysql type does not found")
          | Some mysqlTypeStr =>
              let ty := StrToType (trimUnsignedFromMySQLType mysqlTypeStr) in
              let col := decodeCanalJSONColumn name value ty javaType in
              tl ← decodeColumns rest mysqlType javaSQLType;
              Ok (col :: tl)
          end
      end
  end.

Definition canalFlatJSONColumnMap2SinkColumns (cols : rowmap)
    (mysqlType : option (gmap string string)) (javaSQLType : option (gmap string Z))
    : result (option (list column)) :=
  let entries := match cols with None => [] | Some m => map_to_list m end in
  res ← decodeColumns entries mysqlType javaSQLType;
  match res with
  | [] => Ok None
  | _ => Ok (Some (merge_sort name_ge res))
  end.

(** [canalFlatMessage2RowChangedEvent] *)
Definition canalFlatMessage2RowChangedEvent (flatMessage : canalFlatMessageInterface)
    : result (RowChangedEvent column) :=
  commitTs ← getCommitTs flatMessage;
  let table := {| tnSchema := getSchema flatMessage; tnTable := getTable flatMessage |} in
  data ← getData flatMessage;
  columns ← canalFlatJSONColumnMap2SinkColumns data (getMySQLType flatMessage)
                  (getJavaSQLType flatMessage);
  old ← getOld flatMessage;
  preColumns ← canalFlatJSONColumnMap2SinkColumns old (getMySQLType flatMessage)
                     (getJavaSQLType flatMessage);
  Ok {| rCommitTs := commitTs; rTable := table;
        rColumns := columns; rPreColumns := preColumns |}.

(** [canalFlatMessage2DDLEvent] *)
Definition canalFlatMessage2DDLEvent (flatDDL : canalFlatMessageInterface)
    : result DDLEvent :=
  commitTs ← getCommitTs flatDDL;
  Ok {| dCommitTs := commitTs;
        dTableInfo := {| tnSchema := getSchema flatDDL; tnTable := getTable flatDDL |};
        dQuery := getQuery flatDDL |}.

(** The zero values the decoder unmarshals into. *)
Definition emptyFlatMessage : canalFlatMessage :=
  {| ID := 0; Schema := ""; Table := ""; PKNames := None; IsDDL := false;
     EventType := ""; ExecutionTime := 0; BuildTime := 0; Query := "";
     SQLType := None; MySQLType := None; Data := None; Old := None; tikvTs := 0 |}.

(** The body of [NextRowChangedEvent] and [NextDDLEvent] after the check of
    the message type: unmarshal [value] into the message type chosen by
    [enableTiDBExtension]. *)
Definition unmarshalMessage (enableExt : bool) (value : string)
    : result canalFlatMessageInterface :=
  if enableExt then
    match jsonUnmarshalExt value
            {| embedded := emptyFlatMessage;
               Extensions := Some {| CommitTs := 0; WatermarkTs := 0 |} |} with
    | Ok m => Ok (FlatWithTiDBExtension m)
    | Err _ => Err (ErrTrace "json.Unmarshal")
    | Panic s => Panic s
    end
  else
    match jsonUnmarshalFlat value emptyFlatMessage with
    | Ok m => Ok (Flat m)
    | Err _ => Err (ErrTrace "json.Unmarshal")
    | Panic s => Panic s
    end.

Definition NextRowChangedEvent (enableExt : bool) (value : string)
    : result (RowChangedEvent column) :=
  data ← unmarshalMessage enableExt value;
  canalFlatMessage2RowChangedEvent data.

Definition NextDDLEvent (enableExt : bool) (value : string) : result DDLEvent :=
  data ← unmarshalMessage enableExt value;
  canalFlatMessage2DDLEvent data.
End Encoder.

(** A small environment on which the encoder and decoder run: a column is
    its name and datum, an event's kind is read off its column lists, JSON
    text is not produced. *)
Definition sampleColumns (cols : option (list (string * datum))) : list canalColumn :=
  (fun c => {| cName := c.1; cSqlType := 4; cMysqlType := "int";
               cValue := default "" c.2; cIsNull := bool_decide (c.2 = None) |})
  <$> default [] cols.

Definition nonEmpty {A} (l : option (list A)) : bool :=
  match l with
  | Some (_ :: _) => true
  | _ => false
  end.

Global Instance sampleEnv : Env := {|
  column := string * datum;
  columnName := fst;
  MQMessage := string * Z;
  IsDelete e := nonEmpty (rPreColumns e) && negb (nonEmpty (rColumns e));
  IsInsert e := negb (nonEmpty (rPreColumns e)) && nonEmpty (rColumns e);
  IsUpdate e := nonEmpty (rPreColumns e) && nonEmpty (rColumns e);
  PrimaryKeyColumns e := [];
  convertRowEventType e := 1;
  convertDdlEventType e := 5;
  eventTypeString t := if decide (t = 5) then "ALTER" else "INSERT";
  buildHeader ts schema table et n :=
    {| hSchemaName := schema; hTableName := table; hEventType := et;
       ExecuteTime := Z.shiftr ts 18 |};
  buildRowData e :=
    Ok {| BeforeColumns := sampleColumns (rPreColumns e);
          AfterColumns := sampleColumns (rColumns e) |};
  convertToCanalTs ts := Z.shiftr ts 18;
  jsonMarshal m := Ok "{}";
  jsonUnmarshalFlat value m := Ok m;
  jsonUnmarshalExt value m := Ok m;
  newResolvedMQMessage value ts := (value, ts);
  newDDLMQMessage value e := (value, dCommitTs e);
  trimUnsignedFromMySQLType ty := ty;
  StrToType ty := 3;
  decodeCanalJSONColumn name value ty javaType := (name, value)
|}.

(** A row insert and a DDL, both committed at timestamp 42. *)
Definition sampleInsert : RowChangedEvent (string * datum) :=
  {| rCommitTs := 42; rTable := {| tnSchema := "test"; tnTable := "t" |};
     rColumns := Some [("id", Some "1")]; rPreColumns := None |}.

Definition sampleDDL : DDLEvent :=
  {| dCommitTs := 42; dTableInfo := {| tnSchema := "test"; tnTable := "t" |};
     dQuery := "ALTER TABLE t ADD COLUMN c INT" |}.

End Canal.

(** ** The canal package: parameters, batches and the decoder *)

Module CanalBatch.
Import Canal.

(** The errors of the configuration path: [strconv]'s syntax error and the
    two wrappers [cerrors.WrapError] is called with. *)
Inductive config_error : Type :=
  | ErrSyntax (fn str : string)
  | ErrSinkInvalidConfig (cause : config_error)
  | ErrKafkaInvalidConfig (cause : config_error).

(** A value, or the error returned in its place. *)
Inductive checked (A : Type) : Type :=
  | Valid (a : A)
  | Invalid (e : config_error).

Arguments Valid {A} a.
Arguments Invalid {A} e.

(** [strconv.ParseBool] of the Go standard library: a [switch] over the
    twelve accepted spellings. *)
Definition ParseBool (str : string) : checked bool :=
  if decide (str ∈ ["1"; "t"; "T"; "true"; "TRUE"; "True"]) then Valid true
  else if decide (str ∈ ["0"; "f"; "F"; "false"; "FALSE"; "False"]) then Valid false
  else Invalid (ErrSyntax "ParseBool" str).

(** [SetParams]: the encoder after the call, or the error; a nil map holds
    no key. *)
Definition SetParams (c : CanalFlatEventBatchEncoder) (params : gmap string string)
    : checked CanalFlatEventBatchEncoder :=
  match params !! "enable-tidb-extension" with
  | Some s =>
      match ParseBool s with
      | Invalid err => Invalid (ErrSinkInvalidConfig err)
      | Valid a => Valid {| messageBuf := messageBuf c; enableTiDBExtension := a |}
      end
  | None => Valid c
  end.

(** [canalFlatEventBatchEncoderBuilder], [newCanalFlatEventBatchEncoderBuilder]
    and the builder's [Build]. *)
Record canalFlatEventBatchEncoderBuilder : Type := { opts : gmap string string }.

Definition newCanalFlatEventBatchEncoderBuilder (opts : gmap string string)
    : canalFlatEventBatchEncoderBuilder :=
  {| opts := opts |}.

Definition BuilderBuild (b : canalFlatEventBatchEncoderBuilder)
    : checked CanalFlatEventBatchEncoder :=
  let encoder := NewCanalFlatEventBatchEncoder in
  match SetParams encoder (opts b) with
  | Invalid err => Invalid (ErrKafkaInvalidConfig err)
  | Valid encoder => Valid encoder
  end.

(** [Size] *)
Definition Size (c : CanalFlatEventBatchEncoder) : Z := -1.

(** What the batch functions and the decoder use of [cdc/model] and [mq.go]:
    the message types, the [Type] and [Value] fields of [MQMessage], its
    constructor for rows, and [json.Unmarshal] into an [MQMessage]. *)
Class MQ `{Env} : Type := {
  MqMessageType : Type;
  MqMessageType_eq_dec :: EqDecision MqMessageType;
  MqMessageTypeUnknown : MqMessageType;
  MqMessageTypeRow : MqMessageType;
  MqMessageTypeDDL : MqMessageType;
  MqMessageTypeResolved : MqMessageType;
  mqType : MQMessage → MqMessageType;
  mqValue : MQMessage → string;
  NewMQMessage : string → Z → MqMessageType → string → string → MQMessage;
  IncRowsCount : MQMessage → MQMessage;
  jsonUnmarshalMQ : string → result MQMessage
}.

Section Batch.
Context `{MQ}.

(** The loop of the encoder's [Build]: a message that does not marshal
    stops it with [log.Panic]. *)
Fixpoint buildMessages (buf : list canalFlatMessageInterface) : result (list MQMessage) :=
  match buf with
  | [] => Ok []
  | msg :: rest =>
      match jsonMarshal msg with
      | Err _ => Panic "CanalFlatEventBatchEncoder"
      | Panic s => Panic s
      | Ok value =>
          let m := NewMQMessage value (getTikvTs msg) MqMessageTypeRow
                                (getSchema msg) (getTable msg) in
          ret ← buildMessages rest;
          Ok (IncRowsCount m :: ret)
      end
  end.

(** The encoder's [Build]: the messages ([None] is the nil slice) and the
    encoder after the call. *)
Definition Build (c : CanalFlatEventBatchEncoder)
    : result (option (list MQMessage) * CanalFlatEventBatchEncoder) :=
  if decide (length (messageBuf c) = 0%nat) then Ok (None, c)
  else
    ret ← buildMessages (messageBuf c);
    Ok (Some ret, {| messageBuf := []; enableTiDBExtension := enableTiDBExtension c |}).

(** [AppendRowChangedEvent] for each event of a list in turn, each at its
    own clock reading; the first error ends the run. *)
Fixpoint AppendRowChangedEvents (c : CanalFlatEventBatchEncoder)
    (es : list (Z * RowChangedEvent column)) : result CanalFlatEventBatchEncoder :=
  match es with
  | [] => Ok c
  | (now, e) :: rest =>
      c' ← AppendRowChangedEvent c now e;
      AppendRowChangedEvents c' rest
  end.

End Batch.
End CanalBatch.

Module CanalDecoder.
Import Canal CanalBatch.

Section Decoder.
Context `{MQ}.

(** [CanalFlatEventBatchDecoder]; [data] is a byte slice, [None] when nil. *)
Record CanalFlatEventBatchDecoder : Type := {
  data : option string;
  msg : option MQMessage;
  enableTiDBExtension : bool
}.

Definition newCanalFlatEventBatchDecoder (data : option string)
    (enableTiDBExtension : bool) : CanalFlatEventBatchDecoder :=
  {| data := data; msg := None; enableTiDBExtension := enableTiDBExtension |}.

(** [len(b.data)] *)
Definition len (data : option string) : nat :=
  match data with
  | None => 0
  | Some s => String.length s
  end.

(** [b.msg = nil] *)
Definition consumed (b : CanalFlatEventBatchDecoder) : CanalFlatEventBatchDecoder :=
  {| data := data b; msg := None; enableTiDBExtension := enableTiDBExtension b |}.

(** [HasNext]: the returned type and flag, or the error, and the decoder
    after the call. *)
Definition HasNext (b : CanalFlatEventBatchDecoder)
    : result (MqMessageType * bool) * CanalFlatEventBatchDecoder :=
  if decide (len (data b) = 0%nat) then (Ok (MqMessageTypeUnknown, false), b)
  else
    match jsonUnmarshalMQ (default "" (data b)) with
    | Err e => (Err e, b)
    | Panic s => (Panic s, b)
    | Ok m =>
        let b' := {| data := None; msg := Some m;
                     enableTiDBExtension := enableTiDBExtension b |} in
        if decide (mqType m = MqMessageTypeUnknown)
        then (Ok (MqMessageTypeUnknown, false), b')
        else (Ok (mqType m, true), b')
    end.

(** [NextRowChangedEvent] *)
Definition NextRowChangedEvent (b : CanalFlatEventBatchDecoder)
    : result (RowChangedEvent column) * CanalFlatEventBatchDecoder :=
  let notFound :=
    (Err (ErrCanalDecodeFailed "not found row changed event message"), b) in
  match msg b with
  | None => notFound
  | Some m =>
      if decide (mqType m ≠ MqMessageTypeRow) then notFound
      else
        match unmarshalMessage (enableTiDBExtension b) (mqValue m) with
        | Err e => (Err e, b)
        | Panic s => (Panic s, b)
        | Ok data => (canalFlatMessage2RowChangedEvent data, consumed b)
        end
  end.

(** [NextDDLEvent] *)
Definition NextDDLEvent (b : CanalFlatEventBatchDecoder)
    : result DDLEvent * CanalFlatEventBatchDecoder :=
  let notFound := (Err (ErrCanalDecodeFailed "not found ddl event message"), b) in
  match msg b with
  | None => notFound
  | Some m =>
      if decide (mqType m ≠ MqMessageTypeDDL) then notFound
      else
        match unmarshalMessage (enableTiDBExtension b) (mqValue m) with
        | Err e => (Err e, b)
        | Panic s => (Panic s, b)
        | Ok data => (canalFlatMessage2DDLEvent data, consumed b)
        end
  end.

(** [NextResolvedEvent]: the message unmarshalled into has a nil
    [Extensions], which [message.Extensions.WatermarkTs] dereferences. *)
Definition NextResolvedEvent (b : CanalFlatEventBatchDecoder)
    : result Z * CanalFlatEventBatchDecoder :=
  let notFound :=
    (Err (ErrCanalDecodeFailed "not found resolved event message"), b) in
  match msg b with
  | None => notFound
  | Some m =>
      if decide (mqType m ≠ MqMessageTypeResolved) then notFound
      else
        match jsonUnmarshalExt (mqValue m)
                {| embedded := emptyFlatMessage; Extensions := None |} with
        | Err _ => (Err (ErrTrace "json.Unmarshal"), b)
        | Panic s => (Panic s, b)
        | Ok message =>
            match Extensions message with
            | Some x => (Ok (WatermarkTs x), consumed b)
            | None => (Panic "nil pointer dereference", consumed b)
            end
        end
  end.

(** A caller of the decoder: the calls it makes, in order. For each call
    the run records whether it delivered: [HasNext] its flag, a [Next...]
    function whether it returned its value (no error, no panic). *)
Inductive call : Type :=
  | CallHasNext
  | CallNextRowChangedEvent
  | CallNextDDLEvent
  | CallNextResolvedEvent.

Global Instance call_eq_dec : EqDecision call.
Proof. solve_decision. Defined.

Definition returned {A} (r : result A) : bool :=
  match r with
  | Ok _ => true
  | _ => false
  end.

Definition invoke (b : CanalFlatEventBatchDecoder) (c : call)
    : bool * CanalFlatEventBatchDecoder :=
  match c with
  | CallHasNext =>
      (match (HasNext b).1 with Ok (_, flag) => flag | _ => false end, (HasNext b).2)
  | CallNextRowChangedEvent =>
      (returned (NextRowChangedEvent b).1, (NextRowChangedEvent b).2)
  | CallNextDDLEvent => (returned (NextDDLEvent b).1, (NextDDLEvent b).2)
  | CallNextResolvedEvent => (returned (NextResolvedEvent b).1, (NextResolvedEvent b).2)
  end.

Fixpoint invokeAll (b : CanalFlatEventBatchDecoder) (cs : list call)
    : list (call * bool) :=
  match cs with
  | [] => []
  | c :: rest => (c, (invoke b c).1) :: invokeAll (invoke b c).2 rest
  end.

(** The number of [HasNext] calls of a run that returned [true], and the
    number of events it delivered. *)
Definition announced (run : list (call * bool)) : nat :=
  length (filter (λ p, p.1 = CallHasNext ∧ p.2 = true) run).
Definition delivered (run : list (call * bool)) : nat :=
  length (filter (λ p, p.1 ≠ CallHasNext ∧ p.2 = true) run).

End Decoder.
End CanalDecoder.

(** A second small environment, with a message queue on which batches and
    the decoder run: a queue message records what [NewMQMessage] is given;
    its serialized form is its type digit followed by its value. Events and
    columns are those of [sampleEnv]. *)
Module CanalSample.
Import Canal CanalBatch CanalDecoder.

Record sampleMessage : Type := {
  smValue : string;
  smTs : Z;
  smType : Z;
  smSchema : string;
  smTable : string;
  smRows : Z
}.

Definition codecEnv : Env := {|
  column := string * datum;
  columnName := fst;
  MQMessage := sampleMessage;
  IsDelete := @IsDelete sampleEnv;
  IsInsert := @IsInsert sampleEnv;
  IsUpdate := @IsUpdate sampleEnv;
  PrimaryKeyColumns := @PrimaryKeyColumns sampleEnv;
  convertRowEventType := @convertRowEventType sampleEnv;
  convertDdlEventType := @convertDdlEventType sampleEnv;
  eventTypeString := @eventTypeString sampleEnv;
  buildHeader := @buildHeader sampleEnv;
  buildRowData := @buildRowData sampleEnv;
  convertToCanalTs := @convertToCanalTs sampleEnv;
  jsonMarshal m := Ok (getSchema m +:+ "." +:+ getTable m);
  jsonUnmarshalFlat value m := Ok m;
  jsonUnmarshalExt value m :=
    if decide (value = "") then Ok m
    else Ok {| embedded := embedded m;
               Extensions := Some {| CommitTs := 0;
                                     WatermarkTs := Z.of_nat (String.length value) |} |};
  newResolvedMQMessage value ts :=
    {| smValue := value; smTs := ts; smType := 3; smSchema := ""; smTable := "";
       smRows := 0 |};
  newDDLMQMessage value e :=
    {| smValue := value; smTs := dCommitTs e; smType := 2;
       smSchema := tnSchema (dTableInfo e); smTable := tnTable (dTableInfo e);
       smRows := 0 |};
  trimUnsignedFromMySQLType := @trimUnsignedFromMySQLType sampleEnv;
  StrToType := @StrToType sampleEnv;
  decodeCanalJSONColumn := @decodeCanalJSONColumn sampleEnv
|}.

Definition sampleUnmarshalMQ (data : string) : result sampleMessage :=
  let message (ty : Z) (value : string) :=
    Ok {| smValue := value; smTs := 0; smType := ty; smSchema := ""; smTable := "";
          smRows := 0 |} in
  match data with
  | String c value =>
      if decide (String c "" = "0") then message 0 value
      else if decide (String c "" = "1") then message 1 value
      else if decide (String c "" = "2") then message 2 value
      else if decide (String c "" = "3") then message 3 value
      else Err (ErrTrace "invalid character")
  | EmptyString => Err (ErrTrace "unexpected end of JSON input")
  end.

#[local] Existing Instance codecEnv.

Definition codecMQ : MQ := {|
  MqMessageType := Z;
  MqMessageTypeUnknown := 0;
  MqMessageTypeRow := 1;
  MqMessageTypeDDL := 2;
  MqMessageTypeResolved := 3;
  mqType := smType;
  mqValue := smValue;
  NewMQMessage value ts ty schema table :=
    {| smValue := value; smTs := ts; smType := ty; smSchema := schema;
       smTable := table; smRows := 0 |};
  IncRowsCount m :=
    {| smValue := smValue m; smTs := smTs m; smType := smType m;
       smSchema := smSchema m; smTable := smTable m; smRows := smRows m + 1 |};
  jsonUnmarshalMQ := sampleUnmarshalMQ
|}.

(** An update whose before-image has a column the after-image lacks, and
    the delete of a row. *)
Definition sampleUpdate : RowChangedEvent (string * datum) :=
  {| rCommitTs := 43; rTable := {| tnSchema := "test"; tnTable := "t" |};
     rColumns := Some [("id", Some "1")];
     rPreColumns := Some [("id", Some "1"); ("c", Some "x")] |}.

Definition sampleDelete : RowChangedEvent (string * datum) :=
  {| rCommitTs := 44; rTable := {| tnSchema := "test"; tnTable := "t" |};
     rColumns := None;
     rPreColumns := Some [("id", Some "1"); ("c", None)] |}.

End CanalSample.

(** ** The optimistic shard-DDL coordinator *)

Module Optimism.

(** *** Schema Joiner *)

(** Modelled from the spec: the schema comparison package behind
    [model.TableInfo] is not in this source tree. A schema is what the
    coordinator needs of it (§3): a finite map from column names to column
    types, with equality and a join that fails when two schemas give one
    column two types. *)
Abbreviation Schema := (gmap string string).

(** Modelled from the spec: [Join] of two schemas, [None] for
    [ConflictDetected] (the shards disagree on a column's type). *)
Definition Join (a b : Schema) : option Schema :=
  if decide (map_agree a b) then Some (a ∪ b) else None.

(** Modelled from the spec: [Join(S)] of a collection of schemas. *)
Definition joinAll (l : list Schema) : option Schema :=
  foldr (fun s acc => acc ≫= Join s) (Some ∅) l.

(** *** Data model *)

(** A shard [(source, upSchema, upTable)], and the store key
    [(task, source, upSchema, upTable)] of its Info and Operation. *)
Abbreviation ShardKey := (string * string * string)%type.
Abbreviation InfoKey := (string * string * string * string)%type.
(** A target [(task, downSchema, downTable)]. *)
Abbreviation Target := (string * string * string)%type.

(** [optimism.Info], as [optimism.NewInfo] of the test file builds it, with
    the [Version] and [Revision] the test reads back. *)
Record Info : Type := {
  Task : string;
  Source : string;
  UpSchema : string;
  UpTable : string;
  DownSchema : string;
  DownTable : string;
  DDLs : list string;
  TableInfoBefore : Schema;
  TableInfosAfter : list Schema;
  Version : Z;
  Revision : Z
}.

Definition NewInfo (task source upSchema upTable downSchema downTable : string)
    (ddls : list string) (before : Schema) (after : list Schema) : Info :=
  {| Task := task; Source := source; UpSchema := upSchema; UpTable := upTable;
     DownSchema := downSchema; DownTable := downTable; DDLs := ddls;
     TableInfoBefore := before; TableInfosAfter := after;
     Version := 0; Revision := 0 |}.

Definition shardOf (i : Info) : ShardKey := (Source i, UpSchema i, UpTable i).
Definition keyOf (i : Info) : InfoKey := (Task i, Source i, UpSchema i, UpTable i).
Definition targetOf (i : Info) : Target := (Task i, DownSchema i, DownTable i).
Definition shardKey (task : string) (k : ShardKey) : InfoKey :=
  (task, k.1.1, k.1.2, k.2).

(** [optimism.ConflictNone], [ConflictDetected], [ConflictResolved]. *)
Inductive ConflictStage : Type := ConflictNone | ConflictDetected | ConflictResolved.

Global Instance ConflictStage_eq_dec : EqDecision ConflictStage.
Proof. solve_decision. Defined.

(** Modelled from the spec: the Operation
    [(task, source, upSchema, upTable, DDLs, ConflictStage, Done)]. *)
Record Operation : Type := {
  opTask : string;
  opSource : string;
  opUpSchema : string;
  opUpTable : string;
  opDDLs : list string;
  opConflictStage : ConflictStage;
  opDone : bool
}.

Definition opShard (op : Operation) : ShardKey := (opSource op, opUpSchema op, opUpTable op).
Definition opKey (op : Operation) : InfoKey :=
  (opTask op, opSource op, opUpSchema op, opUpTable op).

(** [optimism.SourceTables]: per (task, source), the upstream tables with the
    downstream table each feeds, as [NewSourceTables] and [AddTable] of the
    test file build it. An entry is (upSchema, upTable, downSchema, downTable). *)
Record SourceTables : Type := {
  stTask : string;
  stSource : string;
  stTables : gset (string * string * string * string)
}.

Definition NewSourceTables (task source : string) : SourceTables :=
  {| stTask := task; stSource := source; stTables := ∅ |}.

Definition AddTable (upSchema upTable downSchema downTable : string) (st : SourceTables)
    : SourceTables :=
  {| stTask := stTask st; stSource := stSource st;
     stTables := {[ (upSchema, upTable, downSchema, downTable) ]} ∪ stTables st |}.

(** The shards of [st] that feed [(downSchema, downTable)]. *)
Definition shardsOf (st : SourceTables) (downSchema downTable : string) : list ShardKey :=
  (fun e => (stSource st, e.1.1.1, e.1.1.2)) <$>
  filter (fun e => e.1.2 = downSchema ∧ e.2 = downTable) (elements (stTables st)).

(** *** Lock Table *)

(** Modelled from the spec: [Lock] of [lock.go] (optimism package), which is
    not in this source tree. The state is the one of §3: the joined schema
    and, per shard, the last-known schema, the ready and done flags and the
    largest version seen. [initSchema] is the InitSchema of the target
    (§4.A), the schema every member is held at until it reports. *)
Record Lock : Type := {
  lockID : string;
  lockTask : string;
  lockDownSchema : string;
  lockDownTable : string;
  initSchema : Schema;
  joined : Schema;
  tables : gmap ShardKey Schema;
  ready : gmap ShardKey bool;
  done : gmap ShardKey bool;
  versions : gmap ShardKey Z
}.

Global Instance Lock_eq_dec : EqDecision Lock.
Proof. solve_decision. Defined.

Global Instance Operation_eq_dec : EqDecision Operation.
Proof. solve_decision. Defined.

(** A Go [map[...]bool] read at a missing key gives [false]. *)
Definition flag (m : gmap ShardKey bool) (k : ShardKey) : bool := default false (m !! k).

(** [utils.GenDDLLockID]: ["{task}-`{downSchema}`.`{downTable}`"], the format
    the test file spells out for [lockID]. *)
Definition genDDLLockID (task downSchema downTable : string) : string :=
  task +:+ "-`" +:+ downSchema +:+ "`.`" +:+ downTable +:+ "`".

(** Modelled from the spec: step 2 of [TrySync] (§4.D), the shards of the
    Table Registry that the lock misses join it. [lock.go] is not in this
    source tree; the spec leaves their schema open, they are added at
    [initSchema], not ready, not done, at version 0. *)
Definition addTables (l : Lock) (tts : list ShardKey) : Lock :=
  foldl (fun l k =>
    match tables l !! k with
    | Some _ => l
    | None =>
        {| lockID := lockID l; lockTask := lockTask l;
           lockDownSchema := lockDownSchema l; lockDownTable := lockDownTable l;
           initSchema := initSchema l; joined := joined l;
           tables := <[k := initSchema l]> (tables l);
           ready := <[k := false]> (ready l);
           done := <[k := false]> (done l);
           versions := <[k := 0]> (versions l) |}
    end) l tts.

(** Modelled from the spec: the lock as it is created on the first Info for
    a target (§3, lifecycle), every registered shard at the InitSchema. *)
Definition NewLock (id task downSchema downTable : string) (init : Schema)
    (tts : list ShardKey) : Lock :=
  addTables
    {| lockID := id; lockTask := task; lockDownSchema := downSchema;
       lockDownTable := downTable; initSchema := init; joined := init;
       tables := ∅; ready := ∅; done := ∅; versions := ∅ |} tts.

(** Modelled from the spec: step 1 of [TrySync] (§4.D): record the reported
    schema, set ready, reset done, keep the largest version. *)
Definition recordInfo (l : Lock) (k : ShardKey) (post : Schema) (version : Z) : Lock :=
  {| lockID := lockID l; lockTask := lockTask l;
     lockDownSchema := lockDownSchema l; lockDownTable := lockDownTable l;
     initSchema := initSchema l; joined := joined l;
     tables := <[k := post]> (tables l);
     ready := <[k := true]> (ready l);
     done := <[k := false]> (done l);
     versions := <[k := Z.max version (default 0 (versions l !! k))]> (versions l) |}.

Definition setJoined (l : Lock) (j : Schema) : Lock :=
  {| lockID := lockID l; lockTask := lockTask l;
     lockDownSchema := lockDownSchema l; lockDownTable := lockDownTable l;
     initSchema := initSchema l; joined := j;
     tables := tables l; ready := ready l; done := done l; versions := versions l |}.

Definition schemas (l : Lock) : list Schema := (map_to_list (tables l)).*2.

(** Modelled from the spec: [TrySync(info, tablesForTarget)] of [lock.go],
    which is not in this source tree. Steps 1 to 4 are those of §4.D:
    record the report, add the missing shards, join all member schemas; on
    a conflict return no DDLs and [ConflictDetected], the joined schema
    staying as it is. For the DDLs of step 5 the spec has
    [Diff(info.preSchema, joined')], which the assertions of
    [optimist_test.go] contradict: [op23] carries the CREATE TABLE statement
    of [i23] where the diff is empty (line 444), and [op3] carries nothing
    where the diff is an ADD COLUMN (line 708). The test is followed: the
    reply carries the Info's own DDLs when the report changes the joined
    schema or leaves the shard at the joined schema ([op11], [op12], [op21],
    [op23], [op33], [op1]), and no DDLs when the shard's schema differs from
    a joined schema that stays as it was ([op31], [op3]). [None] is the
    error return: an Info without a post-schema. *)
Definition TrySync (l : Lock) (info : Info) (tts : list ShardKey)
    : option (Lock * list string * ConflictStage) :=
  match last (TableInfosAfter info) with
  | None => None
  | Some post =>
      let l1 := recordInfo l (shardOf info) post (Version info) in
      let l2 := addTables l1 tts in
      match joinAll (schemas l2) with
      | None => Some (l2, [], ConflictDetected)
      | Some joined' =>
          let ddls :=
            if decide (joined' ≠ joined l ∨ post = joined') then DDLs info else [] in
          Some (setJoined l2 joined', ddls, ConflictNone)
      end
  end.

(** The shards of the lock, and those that are not ready. *)
Definition members (l : Lock) : list ShardKey := (map_to_list (tables l)).*1.

Definition remain (l : Lock) : nat :=
  length (filter (fun k => flag (ready l) k = false) (members l)).

(** Modelled from the spec: [IsSynced()] (§4.D): all known shards are ready;
    also [remain], the count of those that are not. *)
Definition IsSynced (l : Lock) : bool * nat :=
  (bool_decide (remain l = 0%nat), remain l).

Definition Ready (l : Lock) : gmap ShardKey bool := ready l.

(** Modelled from the spec: the removal of a shard whose table was dropped
    (§4.E, SourceTables event); the joined schema is left as it is. *)
Definition TryRemoveTable (l : Lock) (k : ShardKey) : Lock :=
  {| lockID := lockID l; lockTask := lockTask l;
     lockDownSchema := lockDownSchema l; lockDownTable := lockDownTable l;
     initSchema := initSchema l; joined := joined l;
     tables := delete k (tables l); ready := delete k (ready l);
     done := delete k (done l); versions := delete k (versions l) |}.

(** *** Metadata store *)

(** Modelled from the spec: the store behind the etcd helpers of the
    optimism package ([PutInfo], [PutOperation], [PutSourceTablesInfo],
    ...), which are not in this source tree. It holds the four key
    families of §4.A and a revision that every write increases. *)
Record KV : Type := {
  kvSourceTables : gmap (string * string) SourceTables;
  kvInfos : gmap InfoKey Info;
  kvOperations : gmap InfoKey Operation;
  kvInitSchemas : gmap Target Schema;
  kvRevision : Z
}.

Definition emptyKV : KV :=
  {| kvSourceTables := ∅; kvInfos := ∅; kvOperations := ∅; kvInitSchemas := ∅;
     kvRevision := 0 |}.

(** Modelled from the spec: the Info as the store keeps it (§3: a Version
    per shard and table, the store Revision of the write); as
    [testSortInfos] reads them back, the key's version counts the writes to
    the key since it was created, the revision is the store's. *)
Definition stamp (kv : KV) (i : Info) : Info :=
  {| Task := Task i; Source := Source i; UpSchema := UpSchema i; UpTable := UpTable i;
     DownSchema := DownSchema i; DownTable := DownTable i; DDLs := DDLs i;
     TableInfoBefore := TableInfoBefore i; TableInfosAfter := TableInfosAfter i;
     Version := match kvInfos kv !! keyOf i with
                | Some old => Version old + 1
                | None => 1
                end;
     Revision := kvRevision kv + 1 |}.

(** Modelled from the spec: the writers of §4.A and §6; each returns the
    revision of its write. *)
Definition PutInfo (kv : KV) (i : Info) : Z * KV :=
  (kvRevision kv + 1,
   {| kvSourceTables := kvSourceTables kv;
      kvInfos := <[keyOf i := stamp kv i]> (kvInfos kv);
      kvOperations := kvOperations kv;
      kvInitSchemas := kvInitSchemas kv;
      kvRevision := kvRevision kv + 1 |}).

Definition PutSourceTables (kv : KV) (st : SourceTables) : Z * KV :=
  (kvRevision kv + 1,
   {| kvSourceTables := <[(stTask st, stSource st) := st]> (kvSourceTables kv);
      kvInfos := kvInfos kv;
      kvOperations := kvOperations kv;
      kvInitSchemas := kvInitSchemas kv;
      kvRevision := kvRevision kv + 1 |}).

Definition DeleteSourceTables (kv : KV) (st : SourceTables) : Z * KV :=
  (kvRevision kv + 1,
   {| kvSourceTables := delete (stTask st, stSource st) (kvSourceTables kv);
      kvInfos := kvInfos kv;
      kvOperations := kvOperations kv;
      kvInitSchemas := kvInitSchemas kv;
      kvRevision := kvRevision kv + 1 |}).

(** Modelled from the spec: one transaction, the SourceTables and the Info. *)
Definition PutSourceTablesInfo (kv : KV) (st : SourceTables) (i : Info) : Z * KV :=
  (kvRevision kv + 1,
   {| kvSourceTables := <[(stTask st, stSource st) := st]> (kvSourceTables kv);
      kvInfos := <[keyOf i := stamp kv i]> (kvInfos kv);
      kvOperations := kvOperations kv;
      kvInitSchemas := kvInitSchemas kv;
      kvRevision := kvRevision kv + 1 |}).

(** Modelled from the spec: one transaction, the SourceTables written, the
    Info key deleted. *)
Definition PutSourceTablesDeleteInfo (kv : KV) (st : SourceTables) (i : Info) : Z * KV :=
  (kvRevision kv + 1,
   {| kvSourceTables := <[(stTask st, stSource st) := st]> (kvSourceTables kv);
      kvInfos := delete (keyOf i) (kvInfos kv);
      kvOperations := kvOperations kv;
      kvInitSchemas := kvInitSchemas kv;
      kvRevision := kvRevision kv + 1 |}).

(** Modelled from the spec: [PutOperation]; with [cas] the write is conditioned on the Info of the
    shard existing. The result says whether the operation was put. *)
Definition PutOperation (kv : KV) (cas : bool) (op : Operation) : Z * bool * KV :=
  if cas && bool_decide (kvInfos kv !! opKey op = None) then (kvRevision kv, false, kv)
  else
    (kvRevision kv + 1, true,
     {| kvSourceTables := kvSourceTables kv;
        kvInfos := kvInfos kv;
        kvOperations := <[opKey op := op]> (kvOperations kv);
        kvInitSchemas := kvInitSchemas kv;
        kvRevision := kvRevision kv + 1 |}).

Definition GetAllInfo (kv : KV) : gmap InfoKey Info := kvInfos kv.
Definition GetAllOperations (kv : KV) : gmap InfoKey Operation := kvOperations kv.

(** *** Info sort order for replay *)

(** Modelled from the spec: the order [sortInfos] of [optimist.go] puts the
    Infos in; the function is not in this source tree. §4.E: group by
    (source, upSchema, upTable); within a group, ascending Version; groups
    ordered by the largest Revision of each group, earliest first. *)
Definition version_le (a b : Info) : Prop := Version a ≤ Version b.
Global Instance version_le_dec : RelDecision version_le.
Proof. intros a b. unfold version_le. apply _. Defined.

Fixpoint groupInsert (i : Info) (gs : list (ShardKey * list Info))
    : list (ShardKey * list Info) :=
  match gs with
  | [] => [(shardOf i, [i])]
  | g :: gs' =>
      if decide (g.1 = shardOf i) then (g.1, g.2 ++ [i]) :: gs'
      else g :: groupInsert i gs'
  end.

(** What [groupInfos] maintains: no two groups share a shard, and every
    group is a non-empty list of Infos of its shard. *)
Definition GroupsOK (gs : list (ShardKey * list Info)) : Prop :=
  NoDup gs.*1 ∧
  Forall (fun g => g.2 ≠ [] ∧ Forall (fun i => shardOf i = g.1) g.2) gs.

Definition groupInfos (l : list Info) : list (ShardKey * list Info) :=
  foldl (fun gs i => groupInsert i gs) [] l.

(** The largest Revision of a group: that of its latest member. *)
Definition latestRevision (g : list Info) : Z :=
  match g with
  | [] => 0
  | i :: g' => foldr Z.max (Revision i) (Revision <$> g')
  end.

Definition group_le (g1 g2 : ShardKey * list Info) : Prop :=
  latestRevision g1.2 ≤ latestRevision g2.2.
Global Instance group_le_dec : RelDecision group_le.
Proof. intros a b. unfold group_le. apply _. Defined.

(** Modelled from the spec: the groups of §4.E, each with its shard, every
    group by ascending Version, the groups by ascending latest Revision. *)
Definition sortedGroups (l : list Info) : list (ShardKey * list Info) :=
  merge_sort group_le ((fun g => (g.1, merge_sort version_le g.2)) <$> groupInfos l).

(** Modelled from the spec: [sortInfos(snapshot)] (§4.E), the groups one
    after the other. *)
Definition sortInfos (ifm : gmap InfoKey Info) : list Info :=
  mjoin (sortedGroups (map_to_list ifm).*2).*2.

(** Ascending store Revision. *)
Definition revision_le (a b : Info) : Prop := Revision a ≤ Revision b.
Global Instance revision_le_dec : RelDecision revision_le.
Proof. intros a b. unfold revision_le. apply _. Defined.

(** *** Reconciler *)

(** Modelled from the spec: [Optimist] of [optimist.go], which is not in this
    source tree. The coordinator holds the Table Registry [tk] and the Lock
    Table [lk]; every watch event is handled by the single dispatcher (§5),
    here right after the write that causes it. *)
Record Optimist : Type := {
  tk : gmap (string * string) SourceTables;
  lk : gmap string Lock
}.

Definition NewOptimist : Optimist := {| tk := ∅; lk := ∅ |}.

(** Modelled from the spec: [FindTables(task, downSchema, downTable)] (§4.C),
    as the shards that feed the target. *)
Definition FindTables (reg : gmap (string * string) SourceTables)
    (task downSchema downTable : string) : list ShardKey :=
  mjoin ((fun e => shardsOf e.2 downSchema downTable) <$>
         filter (fun e => e.1.1 = task) (map_to_list reg)).

Definition Locks (o : Optimist) : gmap string Lock := lk o.

(** Modelled from the spec: an Info with a version older than the one the
    lock has seen is discarded (§3, invariant 5). *)
Definition stale (l : Lock) (info : Info) : bool :=
  bool_decide (Version info < default 0 (versions l !! shardOf info)).

(** Modelled from the spec: the Operation written in reply to an Info
    (§3), not done, with the DDLs and the stage [TrySync] returns. *)
Definition operationFor (info : Info) (ddls : list string) (stage : ConflictStage)
    : Operation :=
  {| opTask := Task info; opSource := Source info;
     opUpSchema := UpSchema info; opUpTable := UpTable info;
     opDDLs := ddls;
     opConflictStage := stage; opDone := false |}.

Definition putInitSchema (kv : KV) (t : Target) (s : Schema) : KV :=
  {| kvSourceTables := kvSourceTables kv;
     kvInfos := kvInfos kv;
     kvOperations := kvOperations kv;
     kvInitSchemas := <[t := s]> (kvInitSchemas kv);
     kvRevision := kvRevision kv + 1 |}.

(** Modelled from the spec: the handling of an Info PUT (§4.E): locate or
    create the lock, [TrySync], persist the resulting Operation. *)
Definition handleInfo (kv : KV) (o : Optimist) (info : Info) : KV * Optimist :=
  let id := genDDLLockID (Task info) (DownSchema info) (DownTable info) in
  let tts := FindTables (tk o) (Task info) (DownSchema info) (DownTable info) in
  let '(kv1, l) :=
    match lk o !! id with
    | Some l => (kv, l)
    | None =>
        let init := default (TableInfoBefore info) (kvInitSchemas kv !! targetOf info) in
        (putInitSchema kv (targetOf info) init,
         NewLock id (Task info) (DownSchema info) (DownTable info) init tts)
    end in
  if stale l info then (kv, o)
  else
    match TrySync l info tts with
    | None => (kv, o)
    | Some (l', ddls, stage) =>
        ((PutOperation kv1 true (operationFor info ddls stage)).2,
         {| tk := tk o; lk := <[id := l']> (lk o) |})
    end.

(** Modelled from the spec: the handling of a SourceTables PUT or DELETE
    (§4.E): update the registry; a shard that left the
    registry leaves every lock of the task it takes part in. *)
Definition registered (st : option SourceTables) : list ShardKey :=
  match st with
  | None => []
  | Some st => (fun e => (stSource st, e.1.1.1, e.1.1.2)) <$> elements (stTables st)
  end.

Definition removeFromLocks (task : string) (dropped : list ShardKey)
    (locks : gmap string Lock) : gmap string Lock :=
  (fun l => if decide (lockTask l = task)
            then foldl TryRemoveTable l dropped else l) <$> locks.

Definition handleSourceTables (o : Optimist) (task source : string)
    (new : option SourceTables) : Optimist :=
  let old := tk o !! (task, source) in
  let dropped := filter (fun k => k ∉ registered new) (registered old) in
  {| tk := match new with
           | Some st => <[(task, source) := st]> (tk o)
           | None => delete (task, source) (tk o)
           end;
     lk := removeFromLocks task dropped (lk o) |}.

(** The writes of the agents to the SourceTables and Info families, each
    followed by the coordinator's handling of the watch events it causes.
    The acknowledgement of an Operation ([Done=true]) and the removal of a
    resolved lock are not part of this model. *)
Inductive Write : Type :=
  | WPutSourceTables (st : SourceTables)
  | WDeleteSourceTables (st : SourceTables)
  | WPutInfo (i : Info)
  | WPutSourceTablesInfo (st : SourceTables) (i : Info)
  | WPutSourceTablesDeleteInfo (st : SourceTables) (i : Info).

Definition step (s : KV * Optimist) (w : Write) : KV * Optimist :=
  let '(kv, o) := s in
  match w with
  | WPutSourceTables st =>
      ((PutSourceTables kv st).2, handleSourceTables o (stTask st) (stSource st) (Some st))
  | WDeleteSourceTables st =>
      ((DeleteSourceTables kv st).2, handleSourceTables o (stTask st) (stSource st) None)
  | WPutInfo i =>
      let kv' := (PutInfo kv i).2 in
      handleInfo kv' o (stamp kv i)
  | WPutSourceTablesInfo st i =>
      let kv' := (PutSourceTablesInfo kv st i).2 in
      handleInfo kv' (handleSourceTables o (stTask st) (stSource st) (Some st)) (stamp kv i)
  | WPutSourceTablesDeleteInfo st i =>
      ((PutSourceTablesDeleteInfo kv st i).2,
       handleSourceTables o (stTask st) (stSource st) (Some st))
  end.

Definition run (s : KV * Optimist) (ws : list Write) : KV * Optimist := foldl step s ws.

(** *** Query surface *)

(** [pb.DDLLock]; [dlDDLs = None] is the nil slice. *)
Record DDLLock : Type := {
  dlID : string;
  dlTask : string;
  dlMode : string;
  dlOwner : string;
  dlDDLs : option (list string);
  dlSynced : list string;
  dlUnsynced : list string
}.

(** Modelled from the spec: the [Mode] of a lock of this coordinator, the
    string of §6. The test file names it [config.ShardOptimistic], a constant
    that is not in this source tree. *)
Definition ShardOptimistic : string := "ShardOptimistic".

(** ["{source}-`{upSchema}`.`{upTable}`"], as the test file formats it with
    [dbutil.TableName]. *)
Definition shardName (k : ShardKey) : string :=
  k.1.1 +:+ "-`" +:+ k.1.2 +:+ "`.`" +:+ k.2 +:+ "`".

(** Modelled from the spec: the shards of [Synced] (§6), those whose
    last-known schema is the joined schema, and the complementary ones. *)
Definition syncedShards (l : Lock) : list ShardKey :=
  (filter (fun e => e.2 = joined l) (map_to_list (tables l))).*1.
Definition unsyncedShards (l : Lock) : list ShardKey :=
  (filter (fun e => e.2 ≠ joined l) (map_to_list (tables l))).*1.

Definition showLock (l : Lock) : DDLLock :=
  {| dlID := lockID l;
     dlTask := lockTask l;
     dlMode := ShardOptimistic;
     dlOwner := "";
     dlDDLs := None;
     dlSynced := merge_sort String.le (shardName <$> syncedShards l);
     dlUnsynced := merge_sort String.le (shardName <$> unsyncedShards l) |}.

Definition hasSource (l : Lock) (source : string) : Prop :=
  Exists (fun k => k.1.1 = source) (members l).

Definition matches (task : string) (sources : list string) (l : Lock) : Prop :=
  (task = "" ∨ task = lockTask l) ∧
  (sources = [] ∨ Exists (hasSource l) sources).

Global Instance matches_dec task sources l : Decision (matches task sources l).
Proof. unfold matches, hasSource. apply _. Defined.

(** Modelled from the spec: [ShowLocks(task, sources)] (§6): one entry per
    matching lock, by lock ID. *)
Definition ShowLocks (o : Optimist) (task : string) (sources : list string) : list DDLLock :=
  showLock <$>
  merge_sort (fun a b => String.le (lockID a) (lockID b))
    (filter (matches task sources) (map_to_list (lk o)).*2).

(** *** Drop-column locks

    A DROP COLUMN Info of schema [S] and column [c]: the shard was at [S]
    and reports [S] without [c]. *)
Definition dropsColumn (S : Schema) (c : string) (info : Info) : Prop :=
  is_Some (S !! c) ∧ TableInfoBefore info = S ∧ TableInfosAfter info = [delete c S].

(** The locks created by a DROP COLUMN Info in which some shard still
    retains the column, each with the shards that have reported the drop:
    the lock is created by the first such Info while the registry lists
    another shard, and stays one as long as the shards that report the drop
    leave another shard at [S]. *)
Inductive DropColumnLock (S : Schema) (c : string) : gset ShardKey → Lock → Prop :=
  | dropLockCreated id task downSchema downTable tts info l ddls stage :
      dropsColumn S c info →
      (∃ k, k ∈ tts ∧ k ≠ shardOf info) →
      TrySync (NewLock id task downSchema downTable S tts) info tts = Some (l, ddls, stage) →
      DropColumnLock S c {[ shardOf info ]} l
  | dropLockNext dropped l0 tts info l ddls stage :
      DropColumnLock S c dropped l0 →
      dropsColumn S c info →
      (∃ k, k ≠ shardOf info ∧ tables l0 !! k = Some S) →
      TrySync l0 info tts = Some (l, ddls, stage) →
      DropColumnLock S c (dropped ∪ {[ shardOf info ]}) l.

(** The lock after [TrySync]; the lock itself when [TrySync] returns an error. *)
Definition afterSync (l : Lock) (info : Info) (tts : list ShardKey) : Lock :=
  match TrySync l info tts with
  | Some r => r.1.1
  | None => l
  end.

(** The lock a state holds under [id]; the empty lock when there is none. *)
Definition lockAt (s : KV * Optimist) (id : string) : Lock :=
  default (NewLock id "" "" "" ∅ []) (lk s.2 !! id).

End Optimism.

(** ** The scenarios of [optimist_test.go]

    The values are the literals of the test file; a [CREATE TABLE] statement
    is read as the column map it declares. *)

Module TestOptimist.
Import Optimism.

Definition task : string := "task-test-optimist".
Definition source1 : string := "mysql-replica-1".
Definition source2 : string := "mysql-replica-2".
Definition downSchema : string := "foo".
Definition downTable : string := "bar".
(** [fmt.Sprintf("%s-`%s`.`%s`", task, downSchema, downTable)] *)
Definition lockID : string := task +:+ "-`" +:+ downSchema +:+ "`.`" +:+ downTable +:+ "`".
Definition DDLs1 : list string := ["ALTER TABLE bar ADD COLUMN c1 INT"].
Definition DDLs2 : list string := ["ALTER TABLE bar ADD COLUMN c2 INT"].
Definition DDLs3 : list string := ["ALTER TABLE bar DROP COLUMN c2"].
(** [CREATE TABLE bar (id INT PRIMARY KEY)] *)
Definition ti0 : Schema := {[ "id" := "INT" ]}.
(** [CREATE TABLE bar (id INT PRIMARY KEY, c1 INT)] *)
Definition ti1 : Schema := {[ "id" := "INT"; "c1" := "INT" ]}.
(** [CREATE TABLE bar (id INT PRIMARY KEY, c1 INT, c2 INT)] *)
Definition ti2 : Schema := {[ "id" := "INT"; "c1" := "INT"; "c2" := "INT" ]}.
Definition ti3 : Schema := ti1.
Definition i11 : Info := NewInfo task source1 "foo" "bar-1" downSchema downTable DDLs1 ti0 [ti1].
Definition i12 : Info := NewInfo task source1 "foo" "bar-2" downSchema downTable DDLs1 ti0 [ti1].
Definition i21 : Info := NewInfo task source1 "foo" "bar-1" downSchema downTable DDLs2 ti1 [ti2].
Definition i23 : Info :=
  NewInfo task source2 "foo-2" "bar-3" downSchema downTable
    ["CREATE TABLE bar (id INT PRIMARY KEY, c1 INT, c2 INT)"] ti2 [ti2].
Definition i31 : Info := NewInfo task source1 "foo" "bar-1" downSchema downTable DDLs3 ti2 [ti3].
Definition i33 : Info := NewInfo task source2 "foo-2" "bar-3" downSchema downTable DDLs3 ti2 [ti3].
Definition st1 : SourceTables :=
  AddTable "foo" "bar-2" downSchema downTable
    (AddTable "foo" "bar-1" downSchema downTable (NewSourceTables task source1)).
Definition st31 : SourceTables :=
  AddTable "foo" "bar-1" downSchema downTable (NewSourceTables task source1).
Definition st32 : SourceTables :=
  AddTable "foo-2" "bar-3" downSchema downTable (NewSourceTables task source2).

(** The state the test starts from: the source tables [st1] are put, no
    Info has been. *)
Definition start : KV * Optimist := step (emptyKV, NewOptimist) (WPutSourceTables st1).

(** CASE 2: [i11] is put, then [i12]. *)
Definition afterI11 : KV * Optimist := step start (WPutInfo i11).
Definition afterI12 : KV * Optimist := step afterI11 (WPutInfo i12).

(** CASE 3. The lock of CASE 2 has been resolved and has left no Info and
    no Operation in the store (the test asserts it, lines 363 to 372), so
    the flow goes on from [start]: [i21] is put; a new table comes with
    [st32] and [i23]; [i12] is put again, to be removed with its table by
    [st31]. *)
Definition afterI21 : KV * Optimist := step start (WPutInfo i21).
Definition case3 : KV * Optimist := step afterI21 (WPutSourceTablesInfo st32 i23).
Definition beforeDelete : KV * Optimist := step case3 (WPutInfo i12).
Definition afterDelete : KV * Optimist :=
  step beforeDelete (WPutSourceTablesDeleteInfo st31 i12).

(** The DROP COLUMN part of [testOptimist]: the registry holds [st31] and
    [st32], no lock is left (line 512); shard 1 puts [i31], then shard 2
    puts [i33]. *)
Definition beforeDrop : KV * Optimist :=
  run (emptyKV, NewOptimist) [WPutSourceTables st31; WPutSourceTables st32].
Definition afterDrop1 : KV * Optimist := step beforeDrop (WPutInfo i31).
Definition afterDrop2 : KV * Optimist := step afterDrop1 (WPutInfo i33).

(** The Operation the store holds for the shard of an Info, reduced to what
    the test asserts of it: its DDLs and its conflict stage. *)
Definition operationOf (s : KV * Optimist) (i : Info)
    : option (list string * ConflictStage) :=
  (fun op => (opDDLs op, opConflictStage op)) <$> kvOperations s.1 !! keyOf i.

End TestOptimist.

(** [TestOptimistLockConflict] *)
Module TestOptimistLockConflict.
Import Optimism.

Definition task : string := "task-test-optimist".
Definition source1 : string := "mysql-replica-1".
Definition downSchema : string := "foo".
Definition downTable : string := "bar".
Definition DDLs1 : list string := ["ALTER TABLE bar ADD COLUMN c1 TEXT"].
Definition DDLs2 : list string := ["ALTER TABLE bar ADD COLUMN c1 DATETIME"].
(** [CREATE TABLE bar (id INT PRIMARY KEY)] *)
Definition ti0 : Schema := {[ "id" := "INT" ]}.
(** [CREATE TABLE bar (id INT PRIMARY KEY, c1 TEXT)] *)
Definition ti1 : Schema := {[ "id" := "INT"; "c1" := "TEXT" ]}.
(** [CREATE TABLE bar (id INT PRIMARY KEY, c1 DATETIME)] *)
Definition ti2 : Schema := {[ "id" := "INT"; "c1" := "DATETIME" ]}.
Definition ti3 : Schema := ti0.
Definition i1 : Info := NewInfo task source1 "foo" "bar-1" downSchema downTable DDLs1 ti0 [ti1].
Definition i2 : Info := NewInfo task source1 "foo" "bar-2" downSchema downTable DDLs2 ti0 [ti2].
Definition i3 : Info := NewInfo task source1 "foo" "bar-2" downSchema downTable DDLs1 ti0 [ti3].
Definition st1 : SourceTables :=
  AddTable "foo" "bar-2" downSchema downTable
    (AddTable "foo" "bar-1" downSchema downTable (NewSourceTables task source1)).

(** The states of the test: the source tables are registered; shard 1 puts
    [i1]; shard 2 puts [i2] and the conflict is detected; shard 2 puts
    [i3]. *)
Definition start : KV * Optimist := step (emptyKV, NewOptimist) (WPutSourceTables st1).
Definition afterI1 : KV * Optimist := step start (WPutInfo i1).
Definition conflicted : KV * Optimist := step afterI1 (WPutInfo i2).
Definition afterI3 : KV * Optimist := step conflicted (WPutInfo i3).

End TestOptimistLockConflict.

(** [testSortInfos] *)
Module TestSortInfos.
Import Optimism.

Definition task : string := "test-optimist-init-schema".
Definition sources : list string := ["mysql-replica-1"; "mysql-replica-2"].
Definition source0 : string := "mysql-replica-1".
Definition source1 : string := "mysql-replica-2".
Definition upSchema : string := "foo".
Definition upTables : list string := ["bar-1"; "bar-2"].
Definition downSchema : string := "foo".
Definition downTable : string := "bar".
Definition DDLs1 : list string := ["ALTER TABLE bar ADD COLUMN c1 TEXT"].
Definition DDLs2 : list string := ["ALTER TABLE bar ADD COLUMN c2 INT"].
Definition ti0 : Schema := {[ "id" := "INT" ]}.
Definition ti1 : Schema := {[ "id" := "INT"; "c1" := "TEXT" ]}.
Definition ti2 : Schema := {[ "id" := "INT"; "c1" := "TEXT"; "c2" := "INT" ]}.
Definition i11 : Info := NewInfo task source0 upSchema "bar-1" downSchema downTable DDLs1 ti0 [ti1].
Definition i12 : Info := NewInfo task source0 upSchema "bar-2" downSchema downTable DDLs1 ti0 [ti1].
Definition i21 : Info := NewInfo task source1 upSchema "bar-2" downSchema downTable DDLs2 ti1 [ti2].

(** [i.Version = v; i.Revision = rev] *)
Definition withVersion (i : Info) (v rev : Z) : Info :=
  {| Task := Task i; Source := Source i; UpSchema := UpSchema i; UpTable := UpTable i;
     DownSchema := DownSchema i; DownTable := DownTable i; DDLs := DDLs i;
     TableInfoBefore := TableInfoBefore i; TableInfosAfter := TableInfosAfter i;
     Version := v; Revision := rev |}.

(** The store after each [PutInfo] of the test, from any store [kv] that
    holds none of the three keys, with the revisions the puts return. *)
Definition kv1 (kv : KV) : KV := (PutInfo kv i11).2.
Definition rev1 (kv : KV) : Z := (PutInfo kv i11).1.
Definition kv2 (kv : KV) : KV := (PutInfo (kv1 kv) i12).2.
Definition rev2 (kv : KV) : Z := (PutInfo (kv1 kv) i12).1.
Definition kv3 (kv : KV) : KV := (PutInfo (kv2 kv) i21).2.
Definition rev3 (kv : KV) : Z := (PutInfo (kv2 kv) i21).1.
Definition kv4 (kv : KV) : KV := (PutInfo (kv3 kv) i11).2.
Definition rev4 (kv : KV) : Z := (PutInfo (kv3 kv) i11).1.

End TestSortInfos.

(* ===================================================================== *)
(** * Part II. Lemmas and theorems *)
(* ===================================================================== *)

(** Closing a goal about concrete values by evaluation. *)
Ltac by_compute := vm_compute; reflexivity.
Ltac by_decide := apply (bool_decide_unpack _); vm_compute; exact I.

(** ** The Canal flat codec *)

Module CanalFacts.
Import Canal.

Ltac unfold_bind := unfold mbind, result_mbind, result_bind in *.

Section WithEnv.
Context `{Env}.

Lemma newFlatMessageForDML_Ok c now e m :
  newFlatMessageForDML c now e = Ok m →
  ID (base m) = 0 ∧ tikvTs (base m) = rCommitTs e ∧
  (enableTiDBExtension c = false → ∃ f, m = Flat f).
Proof.
  unfold newFlatMessageForDML. destruct (buildRowData e) as [rowData| |]; [|done..].
  unfold_bind.
  destruct (IsDelete e); [|destruct (IsInsert e); [|destruct (IsUpdate e); [|done]]];
    destruct (enableTiDBExtension c); simpl; intros [= <-]; simpl;
    (split_and!; [done|done|intros ?; by eauto]).
Qed.

(** The encoder does build a message for every well-formed row event. *)
Lemma newFlatMessageForDML_returns c now e rowData :
  buildRowData e = Ok rowData →
  IsDelete e || IsInsert e || IsUpdate e = true →
  ∃ m, newFlatMessageForDML c now e = Ok m.
Proof.
  intros Hrow Hkind. unfold newFlatMessageForDML. rewrite Hrow. unfold_bind.
  destruct (IsDelete e); [|destruct (IsInsert e); [|destruct (IsUpdate e); [|done]]];
    destruct (enableTiDBExtension c); simpl; eauto.
Qed.

Lemma newFlatMessageForDDL_base c now e :
  ID (base (newFlatMessageForDDL c now e)) = 0 ∧
  (enableTiDBExtension c = false → ∃ f, newFlatMessageForDDL c now e = Flat f).
Proof.
  unfold newFlatMessageForDDL. destruct (enableTiDBExtension c); simpl; split; eauto.
  intros [=].
Qed.

(** C8: every Canal flat message the encoder builds, for a row-changed event
    (whenever one is built, and one is built for every delete, insert or
    update whose row data can be built), for a DDL event and for a
    checkpoint event, has its [ID] field equal to zero, and the JSON key
    ["id"] is present with that value. *)
Theorem flat_message_id_zero (c : CanalFlatEventBatchEncoder) (now : Z) :
  (∀ e m, newFlatMessageForDML c now e = Ok m →
          ID (base m) = 0 ∧ json_id m = Some 0) ∧
  (∀ e rowData, buildRowData e = Ok rowData →
          IsDelete e || IsInsert e || IsUpdate e = true →
          ∃ m, newFlatMessageForDML c now e = Ok m ∧ json_id m = Some 0) ∧
  (∀ e, ID (base (newFlatMessageForDDL c now e)) = 0 ∧
        json_id (newFlatMessageForDDL c now e) = Some 0) ∧
  (∀ ts, ID (embedded (newFlatMessage4CheckpointEvent c now ts)) = 0 ∧
         json_id (FlatWithTiDBExtension (newFlatMessage4CheckpointEvent c now ts)) = Some 0).
Proof.
  split_and!.
  - intros e m Hm. apply newFlatMessageForDML_Ok in Hm as (Hid & _ & _).
    unfold json_id. by rewrite Hid.
  - intros e rowData Hrow Hkind.
    destruct (newFlatMessageForDML_returns c now e rowData Hrow Hkind) as [m Hm].
    exists m. split; [done|].
    apply newFlatMessageForDML_Ok in Hm as (Hid & _ & _). unfold json_id. by rewrite Hid.
  - intros e. destruct (newFlatMessageForDDL_base c now e) as [Hid _].
    unfold json_id. by rewrite Hid.
  - intros ts. done.
Qed.

(** C9: without the TiDB extension [EncodeCheckpointEvent] returns the pair
    (nil, nil) for every timestamp; a checkpoint message is returned only
    when the extension is enabled, and then one is returned whenever the
    message marshals. *)
Theorem checkpoint_requires_extension (c : CanalFlatEventBatchEncoder) (now ts : Z) :
  (enableTiDBExtension c = false → EncodeCheckpointEvent c now ts = Ok None) ∧
  (∀ msg, EncodeCheckpointEvent c now ts = Ok (Some msg) → enableTiDBExtension c = true) ∧
  (∀ value, enableTiDBExtension c = true →
     jsonMarshal (FlatWithTiDBExtension (newFlatMessage4CheckpointEvent c now ts)) = Ok value →
     EncodeCheckpointEvent c now ts = Ok (Some (newResolvedMQMessage value ts))).
Proof.
  unfold EncodeCheckpointEvent. split_and!.
  - by intros ->.
  - intros msg. by destruct (enableTiDBExtension c).
  - intros value -> Hval. simpl. by rewrite Hval.
Qed.

Lemma row_event_of_flat (c : canalFlatMessage) r :
  canalFlatMessage2RowChangedEvent (Flat c) = Ok r → rCommitTs r = 0.
Proof.
  unfold canalFlatMessage2RowChangedEvent. unfold_bind. simpl.
  destruct (getData (Flat c)) as [data| |]; [|done..].
  destruct (canalFlatJSONColumnMap2SinkColumns data _ _) as [cols| |]; [|done..].
  destruct (getOld (Flat c)) as [old| |]; [|done..].
  destruct (canalFlatJSONColumnMap2SinkColumns old _ _) as [pre| |]; [|done..].
  by intros [= <-].
Qed.

Lemma unmarshal_without_extension value m :
  unmarshalMessage false value = Ok m → ∃ c, m = Flat c.
Proof.
  unfold unmarshalMessage. destruct (jsonUnmarshalFlat value emptyFlatMessage); [|done..].
  intros [= <-]. eauto.
Qed.

(** C10: for a Canal flat message without the TiDB extension [getCommitTs]
    is 0, so every row-changed event and every DDL event decoded from such a
    message has commit timestamp 0, whatever the commit timestamp of the
    event it was built from: this holds for the two conversion functions, for
    the messages an encoder without the extension builds, and for what the
    decoder without the extension returns. *)
Theorem flat_message_commit_ts_lost :
  (∀ c : canalFlatMessage, getCommitTs (Flat c) = Ok 0) ∧
  (∀ (c : canalFlatMessage) r,
     canalFlatMessage2RowChangedEvent (Flat c) = Ok r → rCommitTs r = 0) ∧
  (∀ c : canalFlatMessage,
     ∃ d, canalFlatMessage2DDLEvent (Flat c) = Ok d ∧ dCommitTs d = 0) ∧
  (∀ enc now e m r,
     enableTiDBExtension enc = false →
     newFlatMessageForDML enc now e = Ok m →
     canalFlatMessage2RowChangedEvent m = Ok r → rCommitTs r = 0) ∧
  (∀ enc now e,
     enableTiDBExtension enc = false →
     ∃ d, canalFlatMessage2DDLEvent (newFlatMessageForDDL enc now e) = Ok d ∧
          dCommitTs d = 0) ∧
  (∀ value r, NextRowChangedEvent false value = Ok r → rCommitTs r = 0) ∧
  (∀ value d, NextDDLEvent false value = Ok d → dCommitTs d = 0).
Proof.
  split_and!.
  - done.
  - apply row_event_of_flat.
  - intros c. eexists. split; [reflexivity|done].
  - intros enc now e m r Hoff Hm Hr.
    apply newFlatMessageForDML_Ok in Hm as (_ & _ & Hflat).
    destruct (Hflat Hoff) as [f ->]. by eapply row_event_of_flat.
  - intros enc now e Hoff.
    destruct (newFlatMessageForDDL_base enc now e) as [_ Hflat].
    destruct (Hflat Hoff) as [f ->]. eexists. split; [reflexivity|done].
  - intros value r. unfold NextRowChangedEvent. unfold_bind.
    destruct (unmarshalMessage false value) as [m| |] eqn:Hm; [|done..].
    apply unmarshal_without_extension in Hm as [c ->]. apply row_event_of_flat.
  - intros value d. unfold NextDDLEvent. unfold_bind.
    destruct (unmarshalMessage false value) as [m| |] eqn:Hm; [|done..].
    apply unmarshal_without_extension in Hm as [c ->]. by intros [= <-].
Qed.

End WithEnv.

(** On the sample environment: an insert and a DDL committed at 42 are
    encoded without the extension, and decode to events committed at 0. *)
Example commit_ts_lost_on_sample :
  let enc := NewCanalFlatEventBatchEncoder in
  (∃ m r, newFlatMessageForDML enc 1000000 sampleInsert = Ok m ∧
          canalFlatMessage2RowChangedEvent m = Ok r ∧
          rCommitTs sampleInsert = 42 ∧ rCommitTs r = 0) ∧
  (∃ d, canalFlatMessage2DDLEvent (newFlatMessageForDDL enc 1000000 sampleDDL) = Ok d ∧
        dCommitTs sampleDDL = 42 ∧ dCommitTs d = 0) ∧
  EncodeCheckpointEvent enc 1000000 42 = Ok None.
Proof.
  split_and!.
  - eexists _, _. split_and!; [vm_compute; reflexivity|vm_compute; reflexivity|done|done].
  - eexists. split_and!; [vm_compute; reflexivity|done|done].
  - done.
Qed.

End CanalFacts.

(** ** The Canal flat codec: columns, batches and the decoder *)

Module SinkColumnFacts.
Import Canal CanalFacts.

Section WithEnv.
Context `{Env}.

Global Instance name_ge_total : Total name_ge.
Proof.
  intros a b. unfold name_ge.
  destruct (total String.le (columnName a) (columnName b)); auto.
Qed.

Global Instance name_ge_trans : Transitive name_ge.
Proof. intros a b c Hab Hbc. unfold name_ge in *. by etrans. Qed.

(** What the loop appends for one entry of the row. *)
Lemma decodeColumns_Ok entries mt jt res :
  decodeColumns entries mt jt = Ok res →
  Forall2 (λ entry col, ∃ ty jty,
             lookup_type jt entry.1 = Some jty ∧ lookup_type mt entry.1 = Some ty ∧
             col = decodeCanalJSONColumn entry.1 entry.2
                     (StrToType (trimUnsignedFromMySQLType ty)) jty) entries res.
Proof.
  revert res. induction entries as [|[name v] rest IH]; intros res; simpl.
  { intros [= <-]. constructor. }
  destruct (lookup_type jt name) as [jty|] eqn:Hj; [|done].
  destruct (lookup_type mt name) as [ty|] eqn:Hm; [|done].
  unfold_bind. destruct (decodeColumns rest mt jt) as [tl| |]; [|done..].
  intros [= <-]. constructor; [by eauto|by apply IH].
Qed.

Lemma decodeColumns_Err entries mt jt e :
  decodeColumns entries mt jt = Err e →
  ∃ name v, (name, v) ∈ entries ∧
    ((lookup_type jt name = None ∧
      e = ErrCanalDecodeFailed "java sql type does not found") ∨
     (is_Some (lookup_type jt name) ∧ lookup_type mt name = None ∧
      e = ErrCanalDecodeFailed "mysql type does not found")).
Proof.
  induction entries as [|[name v] rest IH]; simpl; [done|].
  destruct (lookup_type jt name) as [jty|] eqn:Hj.
  - destruct (lookup_type mt name) as [ty|] eqn:Hm.
    + unfold_bind. destruct (decodeColumns rest mt jt) as [tl| |]; [done| |done].
      intros [= ->]. destruct IH as (n & w & Hin & Hcase); [done|].
      exists n, w. split; [by right|done].
    + intros [= <-]. exists name, v. split; [by left|]. right. by eauto.
  - intros [= <-]. exists name, v. split; [by left|]. left. by eauto.
Qed.

Lemma decodeColumns_no_panic entries mt jt s :
  decodeColumns entries mt jt ≠ Panic s.
Proof.
  induction entries as [|[name v] rest IH]; simpl; [done|].
  destruct (lookup_type jt name); [|done]. destruct (lookup_type mt name); [|done].
  unfold_bind. by destruct (decodeColumns rest mt jt).
Qed.

Lemma decodeColumns_typed entries mt jt :
  (∀ name v, (name, v) ∈ entries →
     is_Some (lookup_type jt name) ∧ is_Some (lookup_type mt name)) →
  ∃ res, decodeColumns entries mt jt = Ok res.
Proof.
  intros Hall. destruct (decodeColumns entries mt jt) as [res|e|s] eqn:Hd; [by eauto| |].
  - apply decodeColumns_Err in Hd as (name & v & Hin & Hcase).
    destruct (Hall name v Hin) as [[? Hj] [? Hm]].
    destruct Hcase as [[Hn _]|(_ & Hn & _)]; congruence.
  - by apply decodeColumns_no_panic in Hd.
Qed.

(** The columns a successful run returns, as a function of the entries. *)
Lemma decodeColumns_fmap entries mt jt res :
  decodeColumns entries mt jt = Ok res →
  res = (λ entry : string * datum,
           decodeCanalJSONColumn entry.1 entry.2
             (StrToType (trimUnsignedFromMySQLType (default "" (lookup_type mt entry.1))))
             (default 0 (lookup_type jt entry.1))) <$> entries.
Proof.
  intros Hd. apply decodeColumns_Ok in Hd.
  induction Hd as [|[name v] col entries res (ty & jty & Hj & Hm & ->) _ IH]; [done|].
  simpl in *. rewrite Hj, Hm. simpl. by f_equal.
Qed.

Lemma decodeColumns_Permutation order entries mt jt res :
  order ≡ₚ entries →
  decodeColumns order mt jt = Ok res →
  ∃ res', decodeColumns entries mt jt = Ok res' ∧ res' ≡ₚ res.
Proof.
  intros Hperm Hd.
  destruct (decodeColumns_typed entries mt jt) as [res' Hres'].
  { intros name v Hin. rewrite <- Hperm in Hin.
    apply decodeColumns_Ok in Hd.
    apply list_elem_of_lookup in Hin as [i Hi].
    destruct (Forall2_lookup_l _ _ _ _ _ Hd Hi) as (col & _ & ty & jty & Hj & Hm & _).
    simpl in *. by rewrite Hj, Hm; eauto. }
  exists res'. split; [done|].
  rewrite (decodeColumns_fmap _ _ _ _ Hd), (decodeColumns_fmap _ _ _ _ Hres').
  by rewrite Hperm.
Qed.

Lemma decodeColumns_Err_iff entries mt jt :
  (∃ e, decodeColumns entries mt jt = Err e) ↔
  ∃ name v, (name, v) ∈ entries ∧
            (lookup_type jt name = None ∨ lookup_type mt name = None).
Proof.
  split.
  - intros [e He]. apply decodeColumns_Err in He as (name & v & Hin & Hcase).
    exists name, v. split; [done|]. destruct Hcase as [[? _]|(_ & ? & _)]; auto.
  - intros (name & v & Hin & Hnone).
    destruct (decodeColumns entries mt jt) as [res|e|s] eqn:Hd; [|by eauto|].
    + apply decodeColumns_Ok in Hd. apply list_elem_of_lookup in Hin as [i Hi].
      destruct (Forall2_lookup_l _ _ _ _ _ Hd Hi) as (col & _ & ty & jty & Hj & Hm & _).
      simpl in *. destruct Hnone; congruence.
    + by apply decodeColumns_no_panic in Hd.
Qed.

Lemma decodeColumns_names entries mt jt res :
  (∀ name v ty jty, columnName (decodeCanalJSONColumn name v ty jty) = name) →
  decodeColumns entries mt jt = Ok res →
  columnName <$> res = entries.*1.
Proof.
  intros Hname Hd. rewrite (decodeColumns_fmap _ _ _ _ Hd), <- list_fmap_compose.
  apply list_fmap_ext. intros i [name v] _. simpl. apply Hname.
Qed.

Lemma NoDup_fmap_eq {A B} (f : A → B) (l : list A) x y :
  NoDup (f <$> l) → x ∈ l → y ∈ l → f x = f y → x = y.
Proof.
  intros Hnd [i Hi]%list_elem_of_lookup [j Hj]%list_elem_of_lookup Hf.
  assert (i = j) as ->; [|congruence].
  apply (NoDup_lookup _ _ _ (f x) Hnd); rewrite list_lookup_fmap.
  - by rewrite Hi.
  - by rewrite Hj, Hf.
Qed.

Lemma sink_columns_unfold (m : gmap string datum) mt jt :
  canalFlatJSONColumnMap2SinkColumns (Some m) mt jt =
    match decodeColumns (map_to_list m) mt jt with
    | Ok [] => Ok None
    | Ok res => Ok (Some (merge_sort name_ge res))
    | Err e => Err e
    | Panic s => Panic s
    end.
Proof.
  unfold canalFlatJSONColumnMap2SinkColumns. unfold_bind.
  by destruct (decodeColumns (map_to_list m) mt jt) as [[|]| |].
Qed.

Lemma sink_columns_None cols mt jt :
  canalFlatJSONColumnMap2SinkColumns cols mt jt = Ok None →
  cols = None ∨ cols = Some ∅.
Proof.
  destruct cols as [m|]; [|by left]. rewrite sink_columns_unfold.
  destruct (decodeColumns (map_to_list m) mt jt) as [[|c r]| |] eqn:Hd; [|done..].
  intros _. right. f_equal. apply map_to_list_empty_iff.
  apply decodeColumns_Ok in Hd. by apply Forall2_nil_inv_r in Hd.
Qed.

(** X5: [canalFlatJSONColumnMap2SinkColumns] returns nil for a nil or empty
    row, whatever the type maps; what it returns for a row with columns holds
    one column per key of the row, each decoded from the key's datum under
    the two types recorded for the key, and is sorted by column name in
    descending order. *)
Theorem sink_columns_sorted (cols : rowmap) (mt : option (gmap string string))
    (jt : option (gmap string Z)) (res : option (list column)) :
  canalFlatJSONColumnMap2SinkColumns cols mt jt = Ok res →
  match res with
  | None => cols = None ∨ cols = Some ∅
  | Some l =>
      ∃ m, cols = Some m ∧ m ≠ ∅ ∧ length l = size m ∧ Sorted name_ge l ∧
        ∀ col, col ∈ l ↔
          ∃ name v ty jty,
            m !! name = Some v ∧ lookup_type jt name = Some jty ∧
            lookup_type mt name = Some ty ∧
            col = decodeCanalJSONColumn name v
                    (StrToType (trimUnsignedFromMySQLType ty)) jty
  end.
Proof.
  destruct res as [l|]; [|by apply sink_columns_None].
  destruct cols as [m|]; [|done]. rewrite sink_columns_unfold.
  destruct (decodeColumns (map_to_list m) mt jt) as [[|c r]| |] eqn:Hd; [done| |done..].
  pose proof (decodeColumns_Ok _ _ _ _ Hd) as Hall.
  intros [= <-]. exists m. split; [done|].
  assert (merge_sort name_ge (c :: r) ≡ₚ c :: r) as Hperm
    by apply merge_sort_Permutation.
  split_and!.
  - intros ->. rewrite map_to_list_empty in Hall. by apply Forall2_nil_inv_l in Hall.
  - rewrite Hperm, <- (Forall2_length _ _ _ Hall). apply length_map_to_list.
  - apply (Sorted_merge_sort name_ge).
  - intros col. rewrite Hperm. split.
    + intros Hin. apply list_elem_of_lookup in Hin as [i Hi].
      destruct (Forall2_lookup_r _ _ _ _ _ Hall Hi)
        as ([name v] & Hentry & ty & jty & Hj & Hm & ->).
      exists name, v, ty, jty. split_and!; [|done..].
      apply elem_of_map_to_list. by eapply list_elem_of_lookup_2.
    + intros (name & v & ty & jty & Hv & Hj & Hm & ->).
      apply elem_of_map_to_list, list_elem_of_lookup in Hv as [i Hi].
      destruct (Forall2_lookup_l _ _ _ _ _ Hall Hi)
        as (col & Hcol & ty' & jty' & Hj' & Hm' & ->).
      simpl in *. apply list_elem_of_lookup_2 in Hcol. congruence.
Qed.

(** X6: an error that [canalFlatJSONColumnMap2SinkColumns] returns is
    [ErrCanalDecodeFailed] for a column of the row that has no entry in the
    Java SQL type map ("java sql type does not found"), or that has one but
    no entry in the MySQL type map ("mysql type does not found"); a nil map
    has no entry. When the function returns columns, every column of the
    row has an entry in both maps. *)
Theorem sink_columns_error (cols : rowmap) (mt : option (gmap string string))
    (jt : option (gmap string Z)) :
  (∀ e, canalFlatJSONColumnMap2SinkColumns cols mt jt = Err e →
        ∃ m name, cols = Some m ∧ is_Some (m !! name) ∧
          ((lookup_type jt name = None ∧
            e = ErrCanalDecodeFailed "java sql type does not found") ∨
           (is_Some (lookup_type jt name) ∧ lookup_type mt name = None ∧
            e = ErrCanalDecodeFailed "mysql type does not found"))) ∧
  (∀ res, canalFlatJSONColumnMap2SinkColumns cols mt jt = Ok res →
          ∀ m name, cols = Some m → is_Some (m !! name) →
                    is_Some (lookup_type jt name) ∧ is_Some (lookup_type mt name)) ∧
  (∀ m name, cols = Some m → is_Some (m !! name) → jt = None ∨ mt = None →
             ∀ res, canalFlatJSONColumnMap2SinkColumns cols mt jt ≠ Ok res).
Proof.
  assert (∀ res, canalFlatJSONColumnMap2SinkColumns cols mt jt = Ok res →
            ∀ m name, cols = Some m → is_Some (m !! name) →
                      is_Some (lookup_type jt name) ∧ is_Some (lookup_type mt name)) as HOk.
  { intros res Hres m name -> [v Hv]. rewrite sink_columns_unfold in Hres.
    destruct (decodeColumns (map_to_list m) mt jt) as [r|e|s] eqn:Hd;
      [|done..]. apply decodeColumns_Ok in Hd.
    apply elem_of_map_to_list, list_elem_of_lookup in Hv as [i Hi].
    destruct (Forall2_lookup_l _ _ _ _ _ Hd Hi) as (col & _ & ty & jty & Hj & Hm & _).
    simpl in *. by rewrite Hj, Hm. }
  split_and!; [|exact HOk|].
  - intros e. destruct cols as [m|]; [|done]. rewrite sink_columns_unfold.
    destruct (decodeColumns (map_to_list m) mt jt) as [r|e'|s] eqn:Hd;
      [by destruct r| |done].
    intros [= <-]. apply decodeColumns_Err in Hd as (name & v & Hin & Hcase).
    apply elem_of_map_to_list in Hin. exists m, name. split_and!; [done|by eauto|].
    destruct Hcase as [[? ->]|(? & ? & ->)]; [by left|by right].
  - intros m name Hcols Hname Hnil res Hres.
    destruct (HOk res Hres m name Hcols Hname) as [[? Hj] [? Hm]].
    destruct Hnil as [-> | ->]; done.
Qed.

(** X7: the result does not depend on the order in which the row is ranged
    over, nor on the sorting algorithm: when decoding keeps the column names,
    ranging over the entries in any order and sorting by descending name in
    any way gives the list the function returns, and the loop fails in one
    order exactly when it fails in every order. *)
Theorem sink_columns_order_independent (m : gmap string datum)
    (mt : option (gmap string string)) (jt : option (gmap string Z))
    (order : list (string * datum)) :
  (∀ name v ty jty, columnName (decodeCanalJSONColumn name v ty jty) = name) →
  order ≡ₚ map_to_list m →
  (∀ res sorted,
     decodeColumns order mt jt = Ok res → res ≠ [] →
     sorted ≡ₚ res → Sorted name_ge sorted →
     canalFlatJSONColumnMap2SinkColumns (Some m) mt jt = Ok (Some sorted)) ∧
  (decodeColumns order mt jt = Ok [] →
     canalFlatJSONColumnMap2SinkColumns (Some m) mt jt = Ok None) ∧
  ((∃ e, decodeColumns order mt jt = Err e) ↔
   (∃ e, canalFlatJSONColumnMap2SinkColumns (Some m) mt jt = Err e)).
Proof.
  intros Hname Hperm. rewrite sink_columns_unfold. split_and!.
  - intros res sorted Hd Hne Hsorted Hs.
    destruct (decodeColumns_Permutation _ _ _ _ _ Hperm Hd) as (res' & Hd' & Hres').
    rewrite Hd'.
    destruct res' as [|c r]; [by apply Permutation_nil in Hres'|].
    do 2 f_equal. apply (Sorted_unique_strong name_ge).
    + intros x1 x2 Hx1 Hx2 H12 H21.
      rewrite (merge_sort_Permutation name_ge) in Hx1. rewrite Hsorted, <- Hres' in Hx2.
      apply (NoDup_fmap_eq columnName (c :: r)); [|done..|].
      * rewrite (decodeColumns_names _ _ _ _ Hname Hd'). apply NoDup_fst_map_to_list.
      * unfold name_ge in *. by apply (anti_symm String.le).
    + apply (Sorted_merge_sort name_ge).
    + done.
    + by rewrite (merge_sort_Permutation name_ge), Hres'.
  - intros Hd.
    destruct (decodeColumns_Permutation _ _ _ _ _ Hperm Hd) as (res' & -> & Hres').
    by apply Permutation_nil_r in Hres' as ->.
  - rewrite decodeColumns_Err_iff. setoid_rewrite Hperm. rewrite <- decodeColumns_Err_iff.
    destruct (decodeColumns (map_to_list m) mt jt) as [[|]| |]; split; intros [? ?]; by eauto.
Qed.

End WithEnv.

Lemma sink_columns_sorted_witness :
  let row : gmap string datum := {[ "id" := Some "1"; "c" := None ]} in
  let mt : option (gmap string string) := Some {[ "id" := "int"; "c" := "varchar" ]} in
  let jt : option (gmap string Z) := Some {[ "id" := 4; "c" := 12 ]} in
  let l : list (string * datum) := [("id", Some "1"); ("c", None)] in
  ∃ m, Some row = Some m ∧ m ≠ ∅ ∧ length l = size m ∧ Sorted name_ge l ∧
    ∀ col, col ∈ l ↔
      ∃ name v ty jty,
        m !! name = Some v ∧ lookup_type jt name = Some jty ∧
        lookup_type mt name = Some ty ∧
        col = decodeCanalJSONColumn name v
                (StrToType (trimUnsignedFromMySQLType ty)) jty.
Proof.
  intros row mt jt l.
  apply (@sink_columns_sorted sampleEnv (Some row) mt jt (Some l)).
  by_compute.
Defined.

Lemma sink_columns_order_independent_witness :
  let m : gmap string datum := {[ "id" := Some "1"; "c" := None ]} in
  let mt : option (gmap string string) := Some {[ "id" := "int"; "c" := "varchar" ]} in
  let jt : option (gmap string Z) := Some {[ "id" := 4; "c" := 12 ]} in
  let order : list (string * datum) := [("c", None); ("id", Some "1")] in
  (∀ res sorted,
     decodeColumns order mt jt = Ok res → res ≠ [] →
     sorted ≡ₚ res → Sorted name_ge sorted →
     canalFlatJSONColumnMap2SinkColumns (Some m) mt jt = Ok (Some sorted)) ∧
  (decodeColumns order mt jt = Ok [] →
     canalFlatJSONColumnMap2SinkColumns (Some m) mt jt = Ok None) ∧
  ((∃ e, decodeColumns order mt jt = Err e) ↔
   (∃ e, canalFlatJSONColumnMap2SinkColumns (Some m) mt jt = Err e)).
Proof.
  intros m mt jt order.
  apply (@sink_columns_order_independent sampleEnv m mt jt order).
  - intros name v ty jty. reflexivity.
  - by_decide.
Defined.

(** A row with a column for which no type was recorded is not decoded;
    nil type maps decode the empty row only. *)
Example sink_columns_without_types :
  let row : gmap string datum := {[ "id" := Some "1"; "c" := None ]} in
  canalFlatJSONColumnMap2SinkColumns (Some row)
    (Some {[ "id" := "int"; "c" := "varchar" ]}) (Some {[ "id" := 4 ]})
    = Err (ErrCanalDecodeFailed "java sql type does not found") ∧
  canalFlatJSONColumnMap2SinkColumns (Some row)
    (Some {[ "id" := "int" ]}) (Some {[ "id" := 4; "c" := 12 ]})
    = Err (ErrCanalDecodeFailed "mysql type does not found") ∧
  canalFlatJSONColumnMap2SinkColumns (Some row) None None
    = Err (ErrCanalDecodeFailed "java sql type does not found") ∧
  canalFlatJSONColumnMap2SinkColumns (Some ∅) None None = Ok None ∧
  canalFlatJSONColumnMap2SinkColumns None None None = Ok None.
Proof. split_and!; by_compute. Qed.

End SinkColumnFacts.

Module EncoderFacts.
Import Canal CanalBatch CanalFacts SinkColumnFacts.

Lemma foldl_insert_is_Some {V} (g : canalColumn → V) cols (m0 : gmap string V) n :
  is_Some (foldl (λ m c, <[cName c := g c]> m) m0 cols !! n) ↔
  is_Some (m0 !! n) ∨ n ∈ cName <$> cols.
Proof.
  revert m0. induction cols as [|c cols IH]; intros m0; cbn [foldl].
  { rewrite fmap_nil, elem_of_nil. tauto. }
  rewrite IH, fmap_cons, elem_of_cons, lookup_insert_is_Some.
  destruct (decide (cName c = n)); intuition congruence.
Qed.

Lemma sqlTypes_is_Some cols n : is_Some (sqlTypes cols !! n) ↔ n ∈ cName <$> cols.
Proof.
  unfold sqlTypes. rewrite foldl_insert_is_Some, lookup_empty, is_Some_alt. tauto.
Qed.

Lemma mysqlTypes_is_Some cols n : is_Some (mysqlTypes cols !! n) ↔ n ∈ cName <$> cols.
Proof.
  unfold mysqlTypes. rewrite foldl_insert_is_Some, lookup_empty, is_Some_alt. tauto.
Qed.

Lemma columnData_is_Some cols n :
  (∃ m, columnData cols = Some m ∧ is_Some (m !! n)) ↔ n ∈ cName <$> cols.
Proof.
  destruct cols as [|c cols].
  { rewrite fmap_nil, elem_of_nil. split; [by intros (? & [=] & _)|by intros []]. }
  unfold columnData. split.
  - intros (m & Hm & Hn). injection Hm as <-.
    apply (foldl_insert_is_Some (λ c, if cIsNull c then None else Some (cValue c))
             (c :: cols) ∅) in Hn as [Hn|Hn]; [|exact Hn].
    rewrite lookup_empty in Hn. by destruct Hn.
  - intros Hn. eexists. split; [done|].
    apply (foldl_insert_is_Some (λ c, if cIsNull c then None else Some (cValue c))
             (c :: cols) ∅). by right.
Qed.

Lemma foldl_insert_fresh {V} (g : canalColumn → V) cols (m0 : gmap string V) n :
  n ∉ cName <$> cols →
  foldl (λ m c, <[cName c := g c]> m) m0 cols !! n = m0 !! n.
Proof.
  revert m0. induction cols as [|c cols IH]; intros m0 Hn; [done|].
  rewrite fmap_cons, not_elem_of_cons in Hn. destruct Hn as [Hne Hn].
  cbn [foldl]. rewrite IH by done. by rewrite lookup_insert_ne.
Qed.

Lemma foldl_insert_lookup {V} (g : canalColumn → V) cols (m0 : gmap string V) c :
  NoDup (cName <$> cols) → c ∈ cols →
  foldl (λ m c, <[cName c := g c]> m) m0 cols !! cName c = Some (g c).
Proof.
  revert m0. induction cols as [|c0 cols IH]; intros m0 Hnd Hc.
  { by apply elem_of_nil in Hc. }
  rewrite fmap_cons in Hnd. apply NoDup_cons in Hnd as [Hfresh Hnd]. cbn [foldl].
  apply elem_of_cons in Hc as [->|Hc]; [|by apply IH].
  rewrite foldl_insert_fresh by done. by rewrite lookup_insert_eq.
Qed.

Section WithEnv.
Context `{Env}.

(** Decoding a row built by the encoder against the type maps built from
    the columns [tys]. *)
Lemma sink_columns_of_columnData cols tys :
  match canalFlatJSONColumnMap2SinkColumns (columnData cols)
          (Some (mysqlTypes tys)) (Some (sqlTypes tys)) with
  | Ok _ => ∀ col, col ∈ cols → cName col ∈ cName <$> tys
  | Err e => e = ErrCanalDecodeFailed "java sql type does not found" ∧
             ∃ col, col ∈ cols ∧ cName col ∉ cName <$> tys
  | Panic _ => False
  end.
Proof.
  destruct (columnData cols) as [m|] eqn:Hm.
  2:{ destruct cols; [|done]. unfold canalFlatJSONColumnMap2SinkColumns. simpl.
      intros col. by rewrite elem_of_nil. }
  rewrite sink_columns_unfold.
  destruct (decodeColumns (map_to_list m) _ _) as [res|e|s] eqn:Hd.
  - assert (∀ col, col ∈ cols → cName col ∈ cName <$> tys) as Hall.
    { intros col Hcol.
      assert (is_Some (m !! cName col)) as [v Hv].
      { destruct (proj2 (columnData_is_Some cols (cName col))) as (m' & Hm' & Hn).
        - by apply list_elem_of_fmap_2.
        - congruence. }
      apply decodeColumns_Ok in Hd.
      apply elem_of_map_to_list, list_elem_of_lookup in Hv as [i Hi].
      destruct (Forall2_lookup_l _ _ _ _ _ Hd Hi) as (c & _ & ty & jty & Hj & _).
      simpl in Hj. apply sqlTypes_is_Some. by eauto. }
    by destruct res.
  - apply decodeColumns_Err in Hd as (name & v & Hin & Hcase).
    apply elem_of_map_to_list in Hin.
    assert (name ∈ cName <$> cols) as Hname.
    { apply columnData_is_Some. by eauto. }
    apply list_elem_of_fmap in Hname as (col & -> & Hcol).
    simpl in Hcase. destruct Hcase as [[Hj ->]|([jty Hj] & Hmy & _)].
    + split; [done|]. exists col. split; [done|].
      rewrite <- sqlTypes_is_Some, Hj. by intros [? ?].
    + exfalso. assert (is_Some (mysqlTypes tys !! cName col)) as [? ?]; [|congruence].
      apply mysqlTypes_is_Some, sqlTypes_is_Some. by eauto.
  - by apply decodeColumns_no_panic in Hd.
Qed.

Lemma sink_columns_of_own_columns cols :
  ∃ res, canalFlatJSONColumnMap2SinkColumns (columnData cols)
           (Some (mysqlTypes cols)) (Some (sqlTypes cols)) = Ok res ∧
         (res = None ↔ cols = []).
Proof.
  pose proof (sink_columns_of_columnData cols cols) as Hspec.
  destruct (canalFlatJSONColumnMap2SinkColumns _ _ _) as [res|e|s] eqn:Hd; [| |done].
  - exists res. split; [done|]. split.
    + intros ->. apply sink_columns_None in Hd.
      destruct cols as [|c cols]; [done|]. destruct Hd as [Hd|Hd]; [done|]. exfalso.
      assert (is_Some ((∅ : gmap string datum) !! cName c)) as [? Hc].
      { destruct (proj2 (columnData_is_Some (c :: cols) (cName c))) as (m' & Hm' & Hn).
        - rewrite fmap_cons. by left.
        - congruence. }
      by rewrite lookup_empty in Hc.
    + intros ->. unfold canalFlatJSONColumnMap2SinkColumns in Hd. simpl in Hd. congruence.
  - destruct Hspec as (_ & col & Hcol & Hnot). destruct Hnot. by apply list_elem_of_fmap_2.
Qed.

(** The parts of a message built for a row event that the decoder reads. *)
Lemma newFlatMessageForDML_parts c now e rowData m :
  buildRowData e = Ok rowData →
  newFlatMessageForDML c now e = Ok m →
  let nonTrivialRow := if IsDelete e then BeforeColumns rowData else AfterColumns rowData in
  getMySQLType m = Some (mysqlTypes nonTrivialRow) ∧
  getJavaSQLType m = Some (sqlTypes nonTrivialRow) ∧
  getCommitTs m = Ok (if enableTiDBExtension c then rCommitTs e else 0) ∧
  getData m = Ok (columnData nonTrivialRow) ∧
  getOld m = Ok (if IsDelete e then None
                 else if IsInsert e then None
                 else columnData (BeforeColumns rowData)) ∧
  getSchema m = hSchemaName (buildHeader (rCommitTs e) (tnSchema (rTable e))
                               (tnTable (rTable e)) (convertRowEventType e) 1) ∧
  getTable m = hTableName (buildHeader (rCommitTs e) (tnSchema (rTable e))
                             (tnTable (rTable e)) (convertRowEventType e) 1).
Proof.
  intros Hrow. unfold newFlatMessageForDML. rewrite Hrow. unfold_bind.
  destruct (IsDelete e); [|destruct (IsInsert e); [|destruct (IsUpdate e); [|done]]];
    destruct (enableTiDBExtension c); simpl; intros [= <-]; by split_and!.
Qed.

(** X8: a message the encoder builds for a row event converts back to a row
    event, without going through JSON, unless the event is an update (neither
    a delete nor an insert) with a before-column whose name is that of no
    after-column: the type maps are built from the after-columns only, and
    the conversion then fails with "java sql type does not found". The
    conversion of a built message never panics. *)
Theorem built_message_decodes (c : CanalFlatEventBatchEncoder) (now : Z)
    (e : RowChangedEvent column) (rowData : RowData) (m : canalFlatMessageInterface) :
  buildRowData e = Ok rowData →
  newFlatMessageForDML c now e = Ok m →
  ((∃ r, canalFlatMessage2RowChangedEvent m = Ok r) ↔
     (IsDelete e = false → IsInsert e = false →
      ∀ col, col ∈ BeforeColumns rowData → cName col ∈ cName <$> AfterColumns rowData)) ∧
  (∀ err, canalFlatMessage2RowChangedEvent m = Err err →
          err = ErrCanalDecodeFailed "java sql type does not found") ∧
  (∀ s, canalFlatMessage2RowChangedEvent m ≠ Panic s).
Proof.
  intros Hrow Hm.
  destruct (newFlatMessageForDML_parts c now e rowData m Hrow Hm)
    as (Hmy & Hj & Hts & Hdata & Hold & _).
  unfold canalFlatMessage2RowChangedEvent. rewrite Hmy, Hj, Hts, Hdata, Hold. unfold_bind.
  set (row := if IsDelete e then BeforeColumns rowData else AfterColumns rowData).
  destruct (sink_columns_of_own_columns row) as (cols & -> & _).
  destruct (IsDelete e) eqn:Hdel; [|destruct (IsInsert e) eqn:Hins].
  - split_and!; [|done..]. split; [done|]. intros _. by eauto.
  - split_and!; [|done..]. split; [done|]. intros _. by eauto.
  - subst row. simpl.
    pose proof (sink_columns_of_columnData (BeforeColumns rowData) (AfterColumns rowData))
      as Hspec.
    destruct (canalFlatJSONColumnMap2SinkColumns _ _ _) as [pre|err|s]; [| |done].
    + split_and!; [|done..]. split; [by intros _ _ _|by eauto].
    + destruct Hspec as (-> & col & Hcol & Hnot). split_and!; [|by intros ? [= <-]|done].
      split; [by intros [? ?]|]. intros Hall. exfalso. by apply Hnot, (Hall eq_refl eq_refl col).
Qed.

(** X9: a delete event comes back from its message with its row in
    [Columns] and nothing in [PreColumns]: the encoder puts the before-image
    of a delete under [data] and leaves [old] nil, and the decoder reads
    [Columns] from [data]. The columns are those of the before-image. *)
Theorem delete_decodes_as_columns (c : CanalFlatEventBatchEncoder) (now : Z)
    (e : RowChangedEvent column) (rowData : RowData) (m : canalFlatMessageInterface) :
  buildRowData e = Ok rowData →
  IsDelete e = true →
  newFlatMessageForDML c now e = Ok m →
  ∃ r, canalFlatMessage2RowChangedEvent m = Ok r ∧
       rPreColumns r = None ∧
       (rColumns r = None ↔ BeforeColumns rowData = []) ∧
       canalFlatJSONColumnMap2SinkColumns (columnData (BeforeColumns rowData))
         (Some (mysqlTypes (BeforeColumns rowData)))
         (Some (sqlTypes (BeforeColumns rowData))) = Ok (rColumns r).
Proof.
  intros Hrow Hdel Hm.
  destruct (newFlatMessageForDML_parts c now e rowData m Hrow Hm)
    as (Hmy & Hj & Hts & Hdata & Hold & _).
  unfold canalFlatMessage2RowChangedEvent. rewrite Hmy, Hj, Hts, Hdata, Hold, Hdel.
  unfold_bind.
  destruct (sink_columns_of_own_columns (BeforeColumns rowData)) as (cols & Hcols & Hnil).
  rewrite Hcols. unfold canalFlatJSONColumnMap2SinkColumns at 1. simpl.
  eexists. split; [done|]. simpl. by split_and!.
Qed.

(** X10: with the TiDB extension enabled the commit timestamp survives: the
    row event converted from the message built for a row event, and the DDL
    event converted from the message built for a DDL event, carry the commit
    timestamp of the original event; the DDL event also carries the original
    query, and the schema and table names of the header. *)
Theorem extension_keeps_commit_ts (c : CanalFlatEventBatchEncoder) (now : Z) :
  enableTiDBExtension c = true →
  (∀ e m r, newFlatMessageForDML c now e = Ok m →
            canalFlatMessage2RowChangedEvent m = Ok r →
            rCommitTs r = rCommitTs e) ∧
  (∀ e, ∃ d, canalFlatMessage2DDLEvent (newFlatMessageForDDL c now e) = Ok d ∧
             dCommitTs d = dCommitTs e ∧ dQuery d = dQuery e ∧
             let header := buildHeader (dCommitTs e) (tnSchema (dTableInfo e))
                             (tnTable (dTableInfo e)) (convertDdlEventType e) 1 in
             dTableInfo d = {| tnSchema := hSchemaName header;
                               tnTable := hTableName header |}).
Proof.
  intros Hext. split.
  - intros e m r Hm.
    destruct (buildRowData e) as [rowData| |] eqn:Hrow;
      [|by unfold newFlatMessageForDML in Hm; rewrite Hrow in Hm..].
    destruct (newFlatMessageForDML_parts c now e rowData m Hrow Hm) as (_ & _ & Hts & _).
    rewrite Hext in Hts. unfold canalFlatMessage2RowChangedEvent. rewrite Hts. unfold_bind.
    destruct (getData m) as [data| |]; [|done..].
    destruct (canalFlatJSONColumnMap2SinkColumns data _ _) as [cols| |]; [|done..].
    destruct (getOld m) as [old| |]; [|done..].
    destruct (canalFlatJSONColumnMap2SinkColumns old _ _) as [pre| |]; [|done..].
    by intros [= <-].
  - intros e. unfold newFlatMessageForDDL. rewrite Hext. simpl.
    eexists. split; [reflexivity|]. by split_and!.
Qed.

(** X14: [AppendRowChangedEvent] appends one message and keeps the
    extension flag exactly when the row data of the event can be built and
    the event is a delete, an insert or an update; it returns an error
    exactly when building the row data does; and when the row data is built
    for an event of none of the three kinds it panics with "unreachable event
    type". *)
Theorem append_outcomes (c : CanalFlatEventBatchEncoder) (now : Z)
    (e : RowChangedEvent column) :
  ((∃ c', AppendRowChangedEvent c now e = Ok c') ↔
     (∃ rowData, buildRowData e = Ok rowData) ∧
     IsDelete e || IsInsert e || IsUpdate e = true) ∧
  (∀ c', AppendRowChangedEvent c now e = Ok c' →
     enableTiDBExtension c' = enableTiDBExtension c ∧
     ∃ m, newFlatMessageForDML c now e = Ok m ∧ messageBuf c' = messageBuf c ++ [m]) ∧
  ((∃ err, AppendRowChangedEvent c now e = Err err) ↔
     ∃ err, buildRowData e = Err err) ∧
  ((∃ rowData, buildRowData e = Ok rowData) →
   IsDelete e || IsInsert e || IsUpdate e = false →
   AppendRowChangedEvent c now e = Panic "unreachable event type").
Proof.
  unfold AppendRowChangedEvent, newFlatMessageForDML. unfold_bind.
  destruct (buildRowData e) as [rowData|err|s]; simpl.
  - destruct (IsDelete e); [|destruct (IsInsert e); [|destruct (IsUpdate e)]]; simpl;
      destruct (enableTiDBExtension c) eqn:Hext; simpl;
      (split_and!;
       [split; [first [by eauto|by intros [? ?]]|first [by eauto|by intros [_ ?]]]
       |first [done|intros c' [= <-]; simpl; by eauto]
       |split; by intros [? ?]
       |by intros _ ?]).
  - split_and!; [|done| |by intros [? ?]].
    + split; [by intros [? ?]|by intros [[? ?] _]].
    + split; by eauto.
  - split_and!; [|done| |by intros [? ?]].
    + split; [by intros [? ?]|by intros [[? ?] _]].
    + split; by intros [? ?].
Qed.

(** X15: in the message built for a row event whose columns (the
    before-columns of a delete, the after-columns otherwise) have distinct
    names, [data] holds one row whose keys are the column names; a null
    column is recorded as nil and any other column as its value, and the two
    type maps record the SQL type and the MySQL type of every column. *)
Theorem built_row_data (c : CanalFlatEventBatchEncoder) (now : Z)
    (e : RowChangedEvent column) (rowData : RowData) (m : canalFlatMessageInterface) :
  buildRowData e = Ok rowData →
  newFlatMessageForDML c now e = Ok m →
  let cols := if IsDelete e then BeforeColumns rowData else AfterColumns rowData in
  cols ≠ [] →
  NoDup (cName <$> cols) →
  ∃ row sqlType mysqlType,
    getData m = Ok (Some row) ∧ getJavaSQLType m = Some sqlType ∧
    getMySQLType m = Some mysqlType ∧
    (∀ name, is_Some (row !! name) ↔ name ∈ cName <$> cols) ∧
    (∀ name, is_Some (sqlType !! name) ↔ name ∈ cName <$> cols) ∧
    (∀ name, is_Some (mysqlType !! name) ↔ name ∈ cName <$> cols) ∧
    ∀ col, col ∈ cols →
      row !! cName col = Some (if cIsNull col then None else Some (cValue col)) ∧
      sqlType !! cName col = Some (cSqlType col) ∧
      mysqlType !! cName col = Some (cMysqlType col).
Proof.
  intros Hrow Hm cols Hne Hnd.
  destruct (newFlatMessageForDML_parts c now e rowData m Hrow Hm)
    as (Hmy & Hj & _ & Hdata & _). fold cols in Hmy, Hj, Hdata.
  assert (columnData cols =
            Some (foldl (λ m c, <[cName c := if cIsNull c then None else Some (cValue c)]> m)
                    ∅ cols)) as Hcd by (by destruct cols).
  rewrite Hcd in Hdata. eexists _, _, _. split_and!; [done..| | | |].
  - intros name. rewrite foldl_insert_is_Some, lookup_empty, is_Some_alt. tauto.
  - apply sqlTypes_is_Some.
  - apply mysqlTypes_is_Some.
  - intros col Hcol. split_and!.
    + by apply (foldl_insert_lookup (λ c, if cIsNull c then None else Some (cValue c))).
    + by apply (foldl_insert_lookup cSqlType).
    + by apply (foldl_insert_lookup cMysqlType).
Qed.

End WithEnv.

Lemma built_message_decodes_witness :
  let c := NewCanalFlatEventBatchEncoder in
  let e := CanalSample.sampleUpdate in
  let rowData := {| BeforeColumns := sampleColumns (rPreColumns e);
                    AfterColumns := sampleColumns (rColumns e) |} in
  let m := match newFlatMessageForDML c 1000000 e with
           | Ok m => m
           | _ => Flat emptyFlatMessage
           end in
  ((∃ r, canalFlatMessage2RowChangedEvent m = Ok r) ↔
     (IsDelete e = false → IsInsert e = false →
      ∀ col, col ∈ BeforeColumns rowData → cName col ∈ cName <$> AfterColumns rowData)) ∧
  (∀ err, canalFlatMessage2RowChangedEvent m = Err err →
          err = ErrCanalDecodeFailed "java sql type does not found") ∧
  (∀ s, canalFlatMessage2RowChangedEvent m ≠ Panic s).
Proof.
  intros c e rowData m.
  apply (@built_message_decodes sampleEnv c 1000000 e rowData m); by_compute.
Defined.

(** The sample update has a before-column ["c"] that its after-image
    lacks: it is encoded, and the message does not convert back; the
    sample insert and the sample delete do. *)
Example update_with_dropped_column :
  let c := NewCanalFlatEventBatchEncoder in
  (∃ m, newFlatMessageForDML c 1000000 CanalSample.sampleUpdate = Ok m ∧
        canalFlatMessage2RowChangedEvent m
          = Err (ErrCanalDecodeFailed "java sql type does not found")) ∧
  (∃ m r, newFlatMessageForDML c 1000000 sampleInsert = Ok m ∧
          canalFlatMessage2RowChangedEvent m = Ok r ∧
          rColumns r = Some [("id", Some "1")] ∧ rPreColumns r = None) ∧
  (∃ m r, newFlatMessageForDML c 1000000 CanalSample.sampleDelete = Ok m ∧
          canalFlatMessage2RowChangedEvent m = Ok r ∧
          rColumns r = Some [("id", Some "1"); ("c", None)] ∧ rPreColumns r = None).
Proof.
  split_and!.
  - eexists. split; by_compute.
  - eexists _, _. split_and!; by_compute.
  - eexists _, _. split_and!; by_compute.
Qed.

Lemma delete_decodes_as_columns_witness :
  let c := NewCanalFlatEventBatchEncoder in
  let e := CanalSample.sampleDelete in
  let rowData := {| BeforeColumns := sampleColumns (rPreColumns e);
                    AfterColumns := sampleColumns (rColumns e) |} in
  let m := match newFlatMessageForDML c 1000000 e with
           | Ok m => m
           | _ => Flat emptyFlatMessage
           end in
  ∃ r, canalFlatMessage2RowChangedEvent m = Ok r ∧
       rPreColumns r = None ∧
       (rColumns r = None ↔ BeforeColumns rowData = []) ∧
       canalFlatJSONColumnMap2SinkColumns (columnData (BeforeColumns rowData))
         (Some (mysqlTypes (BeforeColumns rowData)))
         (Some (sqlTypes (BeforeColumns rowData))) = Ok (rColumns r).
Proof.
  intros c e rowData m.
  apply (@delete_decodes_as_columns sampleEnv c 1000000 e rowData m); by_compute.
Defined.

Lemma extension_keeps_commit_ts_witness :
  let c := {| messageBuf := []; enableTiDBExtension := true |} in
  let now := 1000000 in
  (∀ e m r, newFlatMessageForDML c now e = Ok m →
            canalFlatMessage2RowChangedEvent m = Ok r →
            rCommitTs r = rCommitTs e) ∧
  (∀ e, ∃ d, canalFlatMessage2DDLEvent (newFlatMessageForDDL c now e) = Ok d ∧
             dCommitTs d = dCommitTs e ∧ dQuery d = dQuery e ∧
             let header := buildHeader (dCommitTs e) (tnSchema (dTableInfo e))
                             (tnTable (dTableInfo e)) (convertDdlEventType e) 1 in
             dTableInfo d = {| tnSchema := hSchemaName header;
                               tnTable := hTableName header |}).
Proof.
  intros c now. apply (@extension_keeps_commit_ts sampleEnv c now). reflexivity.
Defined.

(** With the extension, the sample insert and the sample DDL, committed at
    42, come back committed at 42. *)
Example commit_ts_kept_on_sample :
  let c := {| messageBuf := []; enableTiDBExtension := true |} in
  (∃ m r, newFlatMessageForDML c 1000000 sampleInsert = Ok m ∧
          canalFlatMessage2RowChangedEvent m = Ok r ∧ rCommitTs r = 42) ∧
  canalFlatMessage2DDLEvent (newFlatMessageForDDL c 1000000 sampleDDL) = Ok sampleDDL.
Proof.
  split.
  - eexists _, _. split_and!; by_compute.
  - by_compute.
Qed.

Lemma built_row_data_witness :
  let c := NewCanalFlatEventBatchEncoder in
  let e := CanalSample.sampleDelete in
  let rowData := {| BeforeColumns := sampleColumns (rPreColumns e);
                    AfterColumns := sampleColumns (rColumns e) |} in
  let m := match newFlatMessageForDML c 1000000 e with
           | Ok m => m
           | _ => Flat emptyFlatMessage
           end in
  let cols := if IsDelete e then BeforeColumns rowData else AfterColumns rowData in
  ∃ row sqlType mysqlType,
    getData m = Ok (Some row) ∧ getJavaSQLType m = Some sqlType ∧
    getMySQLType m = Some mysqlType ∧
    (∀ name, is_Some (row !! name) ↔ name ∈ cName <$> cols) ∧
    (∀ name, is_Some (sqlType !! name) ↔ name ∈ cName <$> cols) ∧
    (∀ name, is_Some (mysqlType !! name) ↔ name ∈ cName <$> cols) ∧
    ∀ col, col ∈ cols →
      row !! cName col = Some (if cIsNull col then None else Some (cValue col)) ∧
      sqlType !! cName col = Some (cSqlType col) ∧
      mysqlType !! cName col = Some (cMysqlType col).
Proof.
  intros c e rowData m.
  apply (@built_row_data sampleEnv c 1000000 e rowData m);
    [by_compute|by_compute|by_decide|by_decide].
Defined.

End EncoderFacts.

Module BatchFacts.
Import Canal CanalBatch CanalFacts EncoderFacts.

Lemma ParseBool_Valid s a :
  ParseBool s = Valid a ↔
  (a = true ∧ s ∈ ["1"; "t"; "T"; "true"; "TRUE"; "True"]) ∨
  (a = false ∧ s ∈ ["0"; "f"; "F"; "false"; "FALSE"; "False"]).
Proof.
  unfold ParseBool.
  destruct (decide (s ∈ ["1"; "t"; "T"; "true"; "TRUE"; "True"])) as [Ht|Ht].
  - split; [intros [= <-]; by left|]. intros [[-> _]|[-> Hf]]; [done|].
    exfalso. revert Ht Hf. rewrite !elem_of_cons, !elem_of_nil. intros Ht Hf.
    destruct Ht as [->|[->|[->|[->|[->|[->|[]]]]]]];
      destruct Hf as [?|[?|[?|[?|[?|[?|[]]]]]]]; done.
  - destruct (decide (s ∈ ["0"; "f"; "F"; "false"; "FALSE"; "False"])) as [Hf|Hf].
    + split; [intros [= <-]; by right|]. by intros [[-> ?]|[-> _]].
    + split; [done|]. by intros [[_ ?]|[_ ?]].
Qed.

Lemma ParseBool_Invalid s e :
  ParseBool s = Invalid e →
  e = ErrSyntax "ParseBool" s ∧
  s ∉ ["1"; "t"; "T"; "true"; "TRUE"; "True"] ∧
  s ∉ ["0"; "f"; "F"; "false"; "FALSE"; "False"].
Proof.
  unfold ParseBool. repeat case_decide; [done..|]. by intros [= <-].
Qed.

Section WithEnv.
Context `{MQ}.

(** X1: the encoder a builder returns has an empty buffer, and has the TiDB
    extension enabled exactly when the option ["enable-tidb-extension"] is
    given one of the spellings ["1"], ["t"], ["T"], ["true"], ["TRUE"],
    ["True"]; without the option, or with one of the six spellings of false,
    the extension is off and [EncodeCheckpointEvent] returns (nil, nil). The
    builder fails exactly when the option is given any other value, with
    [ErrKafkaInvalidConfig] wrapping [ErrSinkInvalidConfig]. *)
Theorem builder_option_values (o : gmap string string) :
  let b := newCanalFlatEventBatchEncoderBuilder o in
  let enabling := ["1"; "t"; "T"; "true"; "TRUE"; "True"] in
  let disabling := ["0"; "f"; "F"; "false"; "FALSE"; "False"] in
  (∀ enc, BuilderBuild b = Valid enc →
     messageBuf enc = [] ∧
     (enableTiDBExtension enc = true ↔
        ∃ s, o !! "enable-tidb-extension" = Some s ∧ s ∈ enabling) ∧
     (∀ now ts, EncodeCheckpointEvent enc now ts = Ok None ↔
        o !! "enable-tidb-extension" = None ∨
        ∃ s, o !! "enable-tidb-extension" = Some s ∧ s ∈ disabling)) ∧
  ((∃ enc, BuilderBuild b = Valid enc) ↔
     ∀ s, o !! "enable-tidb-extension" = Some s → s ∈ enabling ∨ s ∈ disabling) ∧
  (∀ e, BuilderBuild b = Invalid e →
     ∃ s, o !! "enable-tidb-extension" = Some s ∧
          e = ErrKafkaInvalidConfig (ErrSinkInvalidConfig (ErrSyntax "ParseBool" s))).
Proof.
  intros b enabling disabling. subst b. unfold BuilderBuild, SetParams. simpl.
  destruct (o !! "enable-tidb-extension") as [s|] eqn:Ho.
  - destruct (ParseBool s) as [a|err] eqn:Hp.
    + apply ParseBool_Valid in Hp. split_and!; [|split; [|by eauto]|done].
      * intros enc [= <-]. simpl. split_and!; [done| |].
        -- split.
           ++ intros ->. exists s. split; [done|]. by destruct Hp as [[_ ?]|[[=] _]].
           ++ intros (s' & [= <-] & Hs'). destruct Hp as [[-> _]|[-> Hf]]; [done|].
              exfalso. assert (ParseBool s = Valid true) as Ht.
              { apply ParseBool_Valid. by left. }
              assert (ParseBool s = Valid false) as Hf'.
              { apply ParseBool_Valid. by right. }
              congruence.
        -- intros now ts. unfold EncodeCheckpointEvent. simpl. split.
           ++ destruct a; simpl.
              ** by destruct (jsonMarshal _).
              ** intros _. right. exists s. split; [done|].
                 by destruct Hp as [[[=] _]|[_ ?]].
           ++ intros [[=]|(s' & [= <-] & Hs')]. destruct Hp as [[-> Ht]|[-> _]]; [|done].
              exfalso. assert (ParseBool s = Valid true) as Ht'.
              { apply ParseBool_Valid. by left. }
              assert (ParseBool s = Valid false) as Hf'.
              { apply ParseBool_Valid. by right. }
              congruence.
      * intros _ s' [= <-]. destruct Hp as [[_ ?]|[_ ?]]; auto.
    + apply ParseBool_Invalid in Hp as (-> & Ht & Hf). split_and!.
      * done.
      * split; [by intros [? ?]|]. intros Hall. by destruct (Hall s eq_refl).
      * intros e [= <-]. by eauto.
  - split_and!; [|split; [done|by eauto]|done].
    intros enc [= <-]. simpl. split_and!; [done| |].
    + split; [done|]. by intros (? & ? & _).
    + intros now ts. unfold EncodeCheckpointEvent. simpl. split; [by left|done].
Qed.

Lemma buildMessages_Ok buf ms :
  buildMessages buf = Ok ms →
  Forall2 (λ msg m, ∃ value,
             jsonMarshal msg = Ok value ∧
             m = IncRowsCount (NewMQMessage value (getTikvTs msg) MqMessageTypeRow
                                 (getSchema msg) (getTable msg))) buf ms.
Proof.
  revert ms. induction buf as [|msg buf IH]; intros ms; simpl.
  { intros [= <-]. constructor. }
  destruct (jsonMarshal msg) as [value| |] eqn:Hv; [|done..].
  unfold_bind. destruct (buildMessages buf) as [ret| |]; [|done..].
  intros [= <-]. constructor; [by eauto|by apply IH].
Qed.

Lemma buildMessages_total buf :
  (∀ msg, msg ∈ buf → ∃ value, jsonMarshal msg = Ok value) →
  ∃ ms, buildMessages buf = Ok ms.
Proof.
  induction buf as [|msg buf IH]; intros Hall; simpl; [by eauto|].
  destruct (Hall msg) as [value ->]; [by left|].
  destruct IH as [ms ->]; [|by unfold_bind; eauto].
  intros m Hm. apply Hall. by right.
Qed.

Lemma buildMessages_result buf :
  match buildMessages buf with
  | Ok _ => ∀ msg, msg ∈ buf → ∃ value, jsonMarshal msg = Ok value
  | Err _ => False
  | Panic _ => ∃ msg, msg ∈ buf ∧ ∀ value, jsonMarshal msg ≠ Ok value
  end.
Proof.
  induction buf as [|msg buf IH]; simpl.
  { intros msg. by rewrite elem_of_nil. }
  destruct (jsonMarshal msg) as [value|e|s] eqn:Hv.
  - unfold_bind. destruct (buildMessages buf) as [ret| |]; [|done|].
    + intros m [->|Hm]%elem_of_cons; [by eauto|by apply IH].
    + destruct IH as (m & Hm & Hno). exists m. split; [by right|done].
  - exists msg. split; [by left|]. intros value. by rewrite Hv.
  - exists msg. split; [by left|]. intros value. by rewrite Hv.
Qed.

(** X2: [Build] returns nil exactly when the buffer is empty; otherwise it
    returns as many messages as the buffer holds and leaves the buffer
    empty, keeping the extension flag: a second [Build] right after returns
    nil and changes nothing. *)
Theorem Build_resets_buffer (c c' : CanalFlatEventBatchEncoder)
    (ret : option (list MQMessage)) :
  Build c = Ok (ret, c') →
  messageBuf c' = [] ∧
  enableTiDBExtension c' = enableTiDBExtension c ∧
  (ret = None ↔ messageBuf c = []) ∧
  (∀ ms, ret = Some ms → length ms = length (messageBuf c)) ∧
  Build c' = Ok (None, c').
Proof.
  unfold Build. destruct (decide (length (messageBuf c) = 0%nat)) as [Hlen|Hlen].
  - intros [= <- <-]. apply nil_length_inv in Hlen. rewrite Hlen. simpl. by split_and!.
  - unfold_bind. destruct (buildMessages (messageBuf c)) as [ms| |] eqn:Hms; [|done..].
    intros [= <- <-]. simpl. split_and!; [done|done| |intros ? [= <-]|done].
    + split; [done|]. intros Hnil. by rewrite Hnil in Hlen.
    + symmetry. by eapply Forall2_length, buildMessages_Ok.
Qed.

(** X4: [Build] never returns an error: it panics exactly when some
    buffered message does not marshal, and otherwise returns. *)
Theorem Build_panics_iff (c : CanalFlatEventBatchEncoder) :
  ((∃ s, Build c = Panic s) ↔
     ∃ msg, msg ∈ messageBuf c ∧ ∀ value, jsonMarshal msg ≠ Ok value) ∧
  (∀ e, Build c ≠ Err e).
Proof.
  unfold Build. pose proof (buildMessages_result (messageBuf c)) as Hres.
  destruct (decide (length (messageBuf c) = 0%nat)) as [Hlen|Hlen].
  - apply nil_length_inv in Hlen. rewrite Hlen. split; [|done].
    split; [by intros [? ?]|]. intros (msg & Hmsg & _). by apply elem_of_nil in Hmsg.
  - unfold_bind. destruct (buildMessages (messageBuf c)) as [ms|e|s]; [| |].
    + split; [|done]. split; [by intros [? ?]|].
      intros (msg & Hmsg & Hno). destruct (Hres msg Hmsg) as [value Hv].
      by destruct (Hno value).
    + done.
    + split; [|done]. split; [done|by eauto].
Qed.

Lemma newFlatMessageForDML_flag c c' now e :
  enableTiDBExtension c = enableTiDBExtension c' →
  newFlatMessageForDML c now e = newFlatMessageForDML c' now e.
Proof. intros Hflag. unfold newFlatMessageForDML. by rewrite Hflag. Qed.

Lemma AppendRowChangedEvents_Ok c es c' :
  AppendRowChangedEvents c es = Ok c' →
  enableTiDBExtension c' = enableTiDBExtension c ∧
  ∃ msgs, messageBuf c' = messageBuf c ++ msgs ∧
          Forall2 (λ ne msg, newFlatMessageForDML c ne.1 ne.2 = Ok msg) es msgs.
Proof.
  revert c. induction es as [|[now e] es IH]; intros c; simpl.
  { intros [= <-]. split; [done|]. exists []. by rewrite app_nil_r. }
  unfold_bind. unfold AppendRowChangedEvent.
  destruct (newFlatMessageForDML c now e) as [msg| |] eqn:Hmsg; [|done..].
  intros Hrest. apply IH in Hrest as (Hflag & msgs & Hbuf & Hall). simpl in *.
  split; [done|]. exists (msg :: msgs). split.
  - by rewrite Hbuf, <- app_assoc.
  - constructor; [done|].
    eapply Forall2_impl; [exact Hall|]. intros [now' e'] msg' Hm. simpl in *.
    rewrite <- Hm. by apply newFlatMessageForDML_flag.
Qed.

(** X3: the row events appended to an encoder with an empty buffer come
    back from [Build] one message per event, in the order of the calls:
    when every message marshals, the message at position [i] is built from
    the JSON of the flat message of event [i], carries the commit timestamp
    of that event as its timestamp, the row message type, and the schema and
    table of the flat message, and has its rows count incremented; [Build]
    leaves the encoder as it was before the events. *)
Theorem appended_events_are_built (c c' : CanalFlatEventBatchEncoder)
    (es : list (Z * RowChangedEvent column)) :
  messageBuf c = [] →
  AppendRowChangedEvents c es = Ok c' →
  (∀ msg, msg ∈ messageBuf c' → ∃ value, jsonMarshal msg = Ok value) →
  ∃ ms, Build c' = Ok (match es with [] => None | _ => Some ms end, c) ∧
        length ms = length es ∧
        ∀ i now e, es !! i = Some (now, e) →
          ∃ msg value,
            newFlatMessageForDML c now e = Ok msg ∧ jsonMarshal msg = Ok value ∧
            ms !! i = Some (IncRowsCount
                              (NewMQMessage value (rCommitTs e) MqMessageTypeRow
                                 (getSchema msg) (getTable msg))).
Proof.
  intros Hempty Happ Hmarshal.
  apply AppendRowChangedEvents_Ok in Happ as (Hflag & msgs & Hbuf & Hall).
  rewrite Hempty in Hbuf. simpl in Hbuf.
  destruct (buildMessages_total (messageBuf c') Hmarshal) as [ms Hms].
  pose proof (buildMessages_Ok _ _ Hms) as Hbuilt. rewrite Hbuf in Hbuilt.
  exists ms. split_and!.
  - unfold Build. destruct (decide (length (messageBuf c') = 0%nat)) as [Hlen|Hlen].
    + apply nil_length_inv in Hlen. rewrite Hlen in Hbuf. subst msgs.
      apply Forall2_nil_inv_r in Hall as ->. destruct c, c'; simpl in *. congruence.
    + rewrite Hms. unfold_bind. rewrite Hflag, <- Hempty.
      destruct es as [|ne es]; [|by destruct c].
      apply Forall2_nil_inv_l in Hall as ->. by rewrite Hbuf in Hlen.
  - by rewrite <- (Forall2_length _ _ _ Hbuilt), (Forall2_length _ _ _ Hall).
  - intros i now e Hi.
    destruct (Forall2_lookup_l _ _ _ _ _ Hall Hi) as (msg & Hmsg & Hm). simpl in Hm.
    destruct (Forall2_lookup_l _ _ _ _ _ Hbuilt Hmsg) as (m & Hmi & value & Hv & ->).
    exists msg, value. split_and!; [done..|].
    apply newFlatMessageForDML_Ok in Hm as (_ & Hts & _).
    unfold getTikvTs in Hmi. by rewrite Hts in Hmi.
Qed.

End WithEnv.

#[local] Existing Instance CanalSample.codecEnv.
#[local] Existing Instance CanalSample.codecMQ.

Lemma Build_resets_buffer_witness :
  let c := match AppendRowChangedEvent NewCanalFlatEventBatchEncoder 1000000
                   sampleInsert with
           | Ok c => c
           | _ => NewCanalFlatEventBatchEncoder
           end in
  let c' := NewCanalFlatEventBatchEncoder in
  let ret := Some [ {| CanalSample.smValue := "test.t"; CanalSample.smTs := 42;
                       CanalSample.smType := 1; CanalSample.smSchema := "test";
                       CanalSample.smTable := "t"; CanalSample.smRows := 1 |} ] in
  messageBuf c' = [] ∧
  enableTiDBExtension c' = enableTiDBExtension c ∧
  (ret = None ↔ messageBuf c = []) ∧
  (∀ ms, ret = Some ms → length ms = length (messageBuf c)) ∧
  Build c' = Ok (None, c').
Proof.
  intros c c' ret.
  apply (@Build_resets_buffer CanalSample.codecEnv CanalSample.codecMQ c c' ret).
  by_compute.
Defined.

Lemma appended_events_are_built_witness :
  let c := NewCanalFlatEventBatchEncoder in
  let es : list (Z * RowChangedEvent column) :=
    [(1000000, sampleInsert); (2000000, CanalSample.sampleDelete)] in
  ∃ ms, Build (match AppendRowChangedEvents c es with Ok c' => c' | _ => c end)
          = Ok (match es with [] => None | _ => Some ms end, c) ∧
        length ms = length es ∧
        ∀ i now e, es !! i = Some (now, e) →
          ∃ msg value,
            newFlatMessageForDML c now e = Ok msg ∧ jsonMarshal msg = Ok value ∧
            ms !! i = Some (IncRowsCount
                              (NewMQMessage value (rCommitTs e) MqMessageTypeRow
                                 (getSchema msg) (getTable msg))).
Proof.
  intros c es.
  apply (@appended_events_are_built CanalSample.codecEnv CanalSample.codecMQ c
           (match AppendRowChangedEvents c es with Ok c' => c' | _ => c end) es).
  - reflexivity.
  - by_compute.
  - intros msg _. eexists. reflexivity.
Defined.

(** On the sample queue: two appended events are built into two row
    messages stamped 42 and 44, and the next [Build] returns nil. *)
Example Build_on_sample :
  let c := NewCanalFlatEventBatchEncoder in
  let es : list (Z * RowChangedEvent column) :=
    [(1000000, sampleInsert); (2000000, CanalSample.sampleDelete)] in
  ∃ c' ms,
    AppendRowChangedEvents c es = Ok c' ∧ Build c' = Ok (Some ms, c) ∧
    CanalSample.smTs <$> ms = [42; 44] ∧ CanalSample.smType <$> ms = [1; 1] ∧
    CanalSample.smRows <$> ms = [1; 1] ∧
    Build c = Ok (None, c).
Proof. eexists _, _. split_and!; by_compute. Qed.

End BatchFacts.

Module DecoderFacts.
Import Canal CanalBatch CanalDecoder CanalFacts SinkColumnFacts.

Section WithEnv.
Context `{MQ}.

Lemma sink_columns_Err cols mt jt e :
  canalFlatJSONColumnMap2SinkColumns cols mt jt = Err e →
  e = ErrCanalDecodeFailed "java sql type does not found" ∨
  e = ErrCanalDecodeFailed "mysql type does not found".
Proof.
  unfold canalFlatJSONColumnMap2SinkColumns. unfold_bind.
  destruct (decodeColumns _ mt jt) as [[|]| |] eqn:Hd; [done..| |done].
  intros [= <-]. apply decodeColumns_Err in Hd as (_ & _ & _ & [[_ ->]|(_ & _ & ->)]); auto.
Qed.

Lemma row_conversion_Err m e :
  canalFlatMessage2RowChangedEvent m = Err e →
  e = ErrCanalDecodeFailed "java sql type does not found" ∨
  e = ErrCanalDecodeFailed "mysql type does not found".
Proof.
  unfold canalFlatMessage2RowChangedEvent. unfold_bind.
  destruct (getCommitTs m) as [ts| |] eqn:Hts; [|by destruct m as [|[? []]]|done].
  destruct (getData m) as [data| |] eqn:Hdata;
    [|by unfold getData in Hdata; destruct (Data (base m)) as [[|]|]|done].
  destruct (canalFlatJSONColumnMap2SinkColumns data _ _) as [cols|e'|] eqn:Hc; [| |done].
  2:{ intros [= <-]. by eapply sink_columns_Err. }
  destruct (getOld m) as [old| |] eqn:Hold;
    [|by unfold getOld in Hold; destruct (Old (base m)) as [[|]|]|done].
  destruct (canalFlatJSONColumnMap2SinkColumns old _ _) as [pre|e'|] eqn:Hp; [done| |done].
  intros [= <-]. by eapply sink_columns_Err.
Qed.

Lemma unmarshalMessage_Err ext value e :
  unmarshalMessage ext value = Err e → e = ErrTrace "json.Unmarshal".
Proof.
  unfold unmarshalMessage. destruct ext.
  - destruct (jsonUnmarshalExt _ _); [done| |done]. by intros [= <-].
  - destruct (jsonUnmarshalFlat _ _); [done| |done]. by intros [= <-].
Qed.

(** X11: each of [NextRowChangedEvent], [NextDDLEvent] and
    [NextResolvedEvent] returns its "not found" error exactly when the
    decoder holds no message of the function's type, and then leaves the
    decoder as it is: a message of another type stays available to the
    function it is meant for. *)
Theorem not_found_iff (b : CanalFlatEventBatchDecoder) :
  (((NextRowChangedEvent b).1 =
      Err (ErrCanalDecodeFailed "not found row changed event message") ↔
    ∀ m, msg b = Some m → mqType m ≠ MqMessageTypeRow) ∧
   ((NextRowChangedEvent b).1 =
      Err (ErrCanalDecodeFailed "not found row changed event message") →
    (NextRowChangedEvent b).2 = b)) ∧
  (((NextDDLEvent b).1 = Err (ErrCanalDecodeFailed "not found ddl event message") ↔
    ∀ m, msg b = Some m → mqType m ≠ MqMessageTypeDDL) ∧
   ((NextDDLEvent b).1 = Err (ErrCanalDecodeFailed "not found ddl event message") →
    (NextDDLEvent b).2 = b)) ∧
  (((NextResolvedEvent b).1 =
      Err (ErrCanalDecodeFailed "not found resolved event message") ↔
    ∀ m, msg b = Some m → mqType m ≠ MqMessageTypeResolved) ∧
   ((NextResolvedEvent b).1 =
      Err (ErrCanalDecodeFailed "not found resolved event message") →
    (NextResolvedEvent b).2 = b)).
Proof.
  split_and!.
  - unfold NextRowChangedEvent. destruct (msg b) as [m|]; [|by split].
    destruct (decide (mqType m ≠ MqMessageTypeRow)) as [Hty|Hty].
    { split; [by intros _ ? [= <-]|done]. }
    destruct (unmarshalMessage _ _) as [data|e|] eqn:Hu; simpl.
    + split; [|by intros Hall; destruct Hty; apply Hall].
      intros He. by apply row_conversion_Err in He as [[=]|[=]].
    + apply unmarshalMessage_Err in Hu as ->.
      split; [done|by intros Hall; destruct Hty; apply Hall].
    + split; [done|by intros Hall; destruct Hty; apply Hall].
  - unfold NextRowChangedEvent. destruct (msg b) as [m|]; [|done].
    destruct (decide (mqType m ≠ MqMessageTypeRow)) as [Hty|Hty]; [done|].
    destruct (unmarshalMessage _ _) as [data|e|] eqn:Hu; simpl; [|done..].
    intros He. by apply row_conversion_Err in He as [[=]|[=]].
  - unfold NextDDLEvent. destruct (msg b) as [m|]; [|by split].
    destruct (decide (mqType m ≠ MqMessageTypeDDL)) as [Hty|Hty].
    { split; [by intros _ ? [= <-]|done]. }
    destruct (unmarshalMessage _ _) as [data|e|] eqn:Hu; simpl.
    + split; [|by intros Hall; destruct Hty; apply Hall].
      unfold canalFlatMessage2DDLEvent. unfold_bind.
      by destruct data as [|[? []]].
    + apply unmarshalMessage_Err in Hu as ->.
      split; [done|by intros Hall; destruct Hty; apply Hall].
    + split; [done|by intros Hall; destruct Hty; apply Hall].
  - unfold NextDDLEvent. destruct (msg b) as [m|]; [|done].
    destruct (decide (mqType m ≠ MqMessageTypeDDL)) as [Hty|Hty]; [done|].
    destruct (unmarshalMessage _ _) as [data|e|] eqn:Hu; simpl; [|done..].
    unfold canalFlatMessage2DDLEvent. unfold_bind. by destruct data as [|[? []]].
  - unfold NextResolvedEvent. destruct (msg b) as [m|]; [|by split].
    destruct (decide (mqType m ≠ MqMessageTypeResolved)) as [Hty|Hty].
    { split; [by intros _ ? [= <-]|done]. }
    destruct (jsonUnmarshalExt _ _) as [[? [x|]]|e|]; simpl;
      (split; [done|by intros Hall; destruct Hty; apply Hall]).
  - unfold NextResolvedEvent. destruct (msg b) as [m|]; [|done].
    destruct (decide (mqType m ≠ MqMessageTypeResolved)) as [Hty|Hty]; [done|].
    by destruct (jsonUnmarshalExt _ _) as [[? [x|]]|e|].
Qed.

(** The calls left to announce a message, and to deliver an event. *)
Lemma HasNext_cases b :
  (HasNext b = (Ok (MqMessageTypeUnknown, false), b)) ∨
  (len (data b) ≠ 0%nat ∧ (HasNext b).2 = b ∧ ∀ r, (HasNext b).1 ≠ Ok r) ∨
  (len (data b) ≠ 0%nat ∧ ∃ m flag ty,
     HasNext b = (Ok (ty, flag),
                  {| data := None; msg := Some m;
                     enableTiDBExtension := enableTiDBExtension b |})).
Proof.
  unfold HasNext. destruct (decide (len (data b) = 0%nat)) as [Hlen|Hlen]; [by left|].
  right. destruct (jsonUnmarshalMQ _) as [m| |]; [|by left..].
  right. split; [done|]. destruct (decide (mqType m = MqMessageTypeUnknown)); by eauto.
Qed.

Lemma Next_cases (b : CanalFlatEventBatchDecoder) (c : call) :
  c ≠ CallHasNext →
  ((invoke b c).1 = false ∧ ((invoke b c).2 = b ∨ (invoke b c).2 = consumed b)) ∨
  (is_Some (msg b) ∧ (invoke b c).2 = consumed b).
Proof.
  intros Hc. destruct c; [done| | |]; simpl.
  - unfold NextRowChangedEvent. destruct (msg b) as [m|]; [|by left; auto].
    destruct (decide _); [by left; auto|].
    destruct (unmarshalMessage _ _) as [d| |]; simpl; [|by left; auto..].
    right. by eauto.
  - unfold NextDDLEvent. destruct (msg b) as [m|]; [|by left; auto].
    destruct (decide _); [by left; auto|].
    destruct (unmarshalMessage _ _) as [d| |]; simpl; [|by left; auto..].
    right. by eauto.
  - unfold NextResolvedEvent. destruct (msg b) as [m|]; [|by left; auto].
    destruct (decide _); [by left; auto|].
    destruct (jsonUnmarshalExt _ _) as [[? [x|]]| |]; simpl; [| |by left; auto..].
    + right. by eauto.
    + left. auto.
Qed.

Lemma announced_cons c (flag : bool) run :
  announced ((c, flag) :: run) =
    ((if decide (c = CallHasNext) then if flag then 1 else 0 else 0) + announced run)%nat.
Proof.
  unfold announced. rewrite filter_cons. simpl.
  destruct (decide (c = CallHasNext)), flag; simpl;
    (rewrite decide_True by done) || (rewrite decide_False by (by intros [? ?])); done.
Qed.

Lemma delivered_cons c (flag : bool) run :
  delivered ((c, flag) :: run) =
    ((if decide (c = CallHasNext) then 0 else if flag then 1 else 0) + delivered run)%nat.
Proof.
  unfold delivered. rewrite filter_cons. simpl.
  destruct (decide (c = CallHasNext)), flag; simpl;
    (rewrite decide_True by done) || (rewrite decide_False by (by intros [? ?])); done.
Qed.

Lemma invokeAll_bounds (b : CanalFlatEventBatchDecoder) (cs : list call) :
  (is_Some (msg b) → len (data b) = 0%nat) →
  (announced (invokeAll b cs) ≤ if decide (len (data b) = 0%nat) then 0 else 1)%nat ∧
  (delivered (invokeAll b cs) ≤
     if msg b then 1 else if decide (len (data b) = 0%nat) then 0 else 1)%nat.
Proof.
  revert b. induction cs as [|c cs IH]; intros b Hinv.
  { unfold announced, delivered. simpl. split; [lia|]. destruct (msg b); [lia|].
    case_decide; lia. }
  cbn [invokeAll]. rewrite announced_cons, delivered_cons.
  destruct (decide (c = CallHasNext)) as [->|Hc].
  - destruct (HasNext_cases b) as [Hsame|[(Hlen & Hsame & Hno)|(Hlen & m & flag & ty & Hnext)]].
    + simpl. rewrite Hsame. simpl. by apply IH.
    + simpl. rewrite Hsame.
      destruct ((HasNext b).1) as [[ty flag]| |] eqn:Hr; [by destruct (Hno (ty, flag))| |];
        by apply IH.
    + simpl. rewrite Hnext. cbn [fst snd].
      destruct (IH {| data := None; msg := Some m;
                      enableTiDBExtension := enableTiDBExtension b |}) as [Ha Hd]; [done|].
      simpl in Ha, Hd. destruct (decide (len (data b) = 0%nat)) as [?|_]; [done|].
      assert (msg b = None) as ->.
      { destruct (msg b) eqn:Hm; [|done]. destruct Hlen. apply Hinv. by eauto. }
      split; [|done]. destruct flag; lia.
  - destruct (Next_cases b c Hc) as [[-> [->| ->]]|[[m Hm] ->]].
    + by apply IH.
    + destruct (IH (consumed b)) as [Ha Hd]; [by intros [? ?]|]. simpl in Ha, Hd.
      split; [done|]. destruct (msg b) eqn:Hm; [|done].
      destruct (decide (len (data b) = 0%nat)); lia.
    + destruct (IH (consumed b)) as [Ha Hd]; [by intros [? ?]|]. simpl in Ha, Hd.
      split; [done|]. rewrite Hm.
      destruct (decide (len (data b) = 0%nat)) as [?|Hlen]; [|by destruct Hlen; eauto].
      destruct ((invoke b c).1); lia.
Qed.

(** X12: a decoder serves at most one message: over any sequence of calls
    on a new decoder, [HasNext] returns true at most once, and at most one
    of the calls of [NextRowChangedEvent], [NextDDLEvent] and
    [NextResolvedEvent] returns an event. *)
Theorem decoder_yields_once (bytes : option string) (ext : bool) (cs : list call) :
  let run := invokeAll (newCanalFlatEventBatchDecoder bytes ext) cs in
  (announced run ≤ 1)%nat ∧ (delivered run ≤ 1)%nat.
Proof.
  intros run. subst run.
  destruct (invokeAll_bounds (newCanalFlatEventBatchDecoder bytes ext) cs) as [Ha Hd].
  { by intros [? ?]. }
  simpl in Ha, Hd. split; case_decide; lia.
Qed.

(** X13: the panics of the two conversions. With the extension type and a
    nil [Extensions], both conversions panic on the read of the commit
    timestamp, and the one to a DDL event panics in no other case. The
    conversion to a row event also panics on the first row of an empty
    [data] list, and, once the columns of [data] are converted, on the first
    row of an empty [old] list. *)
Theorem conversion_panics (m : canalFlatMessageInterface) :
  ((∃ c, m = FlatWithTiDBExtension c ∧ Extensions c = None) →
     canalFlatMessage2RowChangedEvent m = Panic "nil pointer dereference" ∧
     canalFlatMessage2DDLEvent m = Panic "nil pointer dereference") ∧
  ((∃ s, canalFlatMessage2DDLEvent m = Panic s) ↔
     ∃ c, m = FlatWithTiDBExtension c ∧ Extensions c = None) ∧
  (∀ ts, getCommitTs m = Ok ts → Data (base m) = Some [] →
         canalFlatMessage2RowChangedEvent m = Panic "index out of range") ∧
  (∀ ts row cols,
     getCommitTs m = Ok ts → getData m = Ok row →
     canalFlatJSONColumnMap2SinkColumns row (getMySQLType m) (getJavaSQLType m) = Ok cols →
     Old (base m) = Some [] →
     canalFlatMessage2RowChangedEvent m = Panic "index out of range").
Proof.
  split_and!.
  - intros (c & -> & Hc). unfold canalFlatMessage2RowChangedEvent,
      canalFlatMessage2DDLEvent. unfold_bind. simpl. by rewrite Hc.
  - unfold canalFlatMessage2DDLEvent. unfold_bind. destruct m as [c|[c [x|]]]; simpl.
    + split; [by intros [? ?]|by intros (? & ? & _)].
    + split; [by intros [? ?]|]. by intros (? & [= <-] & ?).
    + split; [by eauto|by eauto].
  - intros ts Hts Hdata. unfold canalFlatMessage2RowChangedEvent, getData. unfold_bind.
    by rewrite Hts, Hdata.
  - intros ts row cols Hts Hdata Hcols Hold.
    unfold canalFlatMessage2RowChangedEvent, getOld. unfold_bind.
    by rewrite Hts, Hdata, Hcols, Hold.
Qed.

End WithEnv.

#[local] Existing Instance CanalSample.codecEnv.
#[local] Existing Instance CanalSample.codecMQ.

(** On the sample queue: a decoder over a DDL message announces it once;
    [NextRowChangedEvent] does not find it and leaves it to [NextDDLEvent],
    which consumes it. *)
Example decoder_on_sample :
  invokeAll (newCanalFlatEventBatchDecoder (Some "2{}") false)
    [CallNextDDLEvent; CallHasNext; CallNextRowChangedEvent; CallNextDDLEvent;
     CallNextDDLEvent; CallHasNext]
  = [(CallNextDDLEvent, false); (CallHasNext, true); (CallNextRowChangedEvent, false);
     (CallNextDDLEvent, true); (CallNextDDLEvent, false); (CallHasNext, false)].
Proof. by_compute. Qed.

(** A resolved message whose JSON has no ["_tidb"] object leaves
    [Extensions] nil, and [NextResolvedEvent] panics on it. *)
Example resolved_without_extension :
  let b := {| data := None;
              msg := Some {| CanalSample.smValue := ""; CanalSample.smTs := 0;
                             CanalSample.smType := 3; CanalSample.smSchema := "";
                             CanalSample.smTable := ""; CanalSample.smRows := 0 |};
              enableTiDBExtension := true |} in
  (NextResolvedEvent b).1 = Panic "nil pointer dereference" ∧
  msg (NextResolvedEvent b).2 = None.
Proof. split; by_compute. Qed.

End DecoderFacts.

(** ** The Schema Joiner *)

Module JoinerFacts.
Import Optimism.

Lemma Join_Some (a b j : Schema) :
  Join a b = Some j ↔ map_agree a b ∧ j = a ∪ b.
Proof.
  unfold Join. case_decide; split; try naive_solver.
Qed.

Lemma Join_None (a b : Schema) : Join a b = None ↔ ¬ map_agree a b.
Proof. unfold Join. case_decide; naive_solver. Qed.

Lemma agree_below (a b S : Schema) : a ⊆ S → b ⊆ S → map_agree a b.
Proof. intros Ha Hb. by eapply map_agree_weaken. Qed.

Lemma union_upper_r (a b : Schema) : map_agree a b → b ⊆ a ∪ b.
Proof.
  rewrite map_agree_spec, map_subseteq_spec. intros Hag i x Hb.
  rewrite lookup_union_Some_raw. destruct (a !! i) as [y|] eqn:Ha; [|by right].
  left. f_equal. by eapply Hag.
Qed.

(** A successful join is the least upper bound of the joined schemas. *)
Lemma joinAll_Some_upper (l : list Schema) (J : Schema) :
  joinAll l = Some J → ∀ s, s ∈ l → s ⊆ J.
Proof.
  revert J. induction l as [|a l IH]; intros J; simpl.
  - intros _ s Hs. by apply elem_of_nil in Hs.
  - destruct (joinAll l) as [J'|] eqn:HJ'; simpl; [|done].
    intros [Hag ->]%Join_Some s [->|Hs]%elem_of_cons.
    + apply map_union_subseteq_l.
    + etrans; [by apply IH|]. by apply union_upper_r.
Qed.

Lemma joinAll_bounded (l : list Schema) (S : Schema) :
  (∀ s, s ∈ l → s ⊆ S) → ∃ J, joinAll l = Some J ∧ J ⊆ S.
Proof.
  induction l as [|a l IH]; intros Hall; simpl.
  - exists ∅. split; [done|]. apply map_empty_subseteq.
  - destruct IH as (J & -> & HJ). { intros s Hs. apply Hall. by right. }
    assert (a ⊆ S) as Ha by (apply Hall; by left).
    exists (a ∪ J). split; [|by apply map_union_least].
    simpl. apply Join_Some. split; [|done]. by eapply agree_below.
Qed.

(** Schemas that all lie below one of them join to it. *)
Lemma joinAll_attained (l : list Schema) (S : Schema) :
  (∀ s, s ∈ l → s ⊆ S) → S ∈ l → joinAll l = Some S.
Proof.
  intros Hall HS. destruct (joinAll_bounded l S Hall) as (J & HJ & Hle).
  rewrite HJ. f_equal. apply (anti_symm (⊆)); [done|].
  by eapply joinAll_Some_upper.
Qed.

(** Two schemas that give a column two types make every join fail. *)
Lemma joinAll_conflict (l : list Schema) (s1 s2 : Schema) :
  s1 ∈ l → s2 ∈ l → ¬ map_agree s1 s2 → joinAll l = None.
Proof.
  intros H1 H2 Hne. destruct (joinAll l) as [J|] eqn:HJ; [|done].
  exfalso. apply Hne. eapply agree_below; by eapply joinAll_Some_upper.
Qed.

Lemma delete_below (S : Schema) (c : string) : delete c S ⊆ S.
Proof. apply delete_subseteq. Qed.

Lemma delete_differs (S : Schema) (c : string) : is_Some (S !! c) → delete c S ≠ S.
Proof. intros [ty Hc] Heq. rewrite <- Heq, lookup_delete_eq in Hc. done. Qed.

End JoinerFacts.

(** ** The Lock Table *)

Module LockFacts.
Import Optimism JoinerFacts.

Lemma elem_of_schemas (l : Lock) (s : Schema) :
  s ∈ schemas l ↔ ∃ k, tables l !! k = Some s.
Proof.
  unfold schemas. rewrite list_elem_of_fmap. split.
  - intros ([k s'] & -> & Hin). exists k. by apply elem_of_map_to_list.
  - intros [k Hk]. exists (k, s). split; [done|]. by apply elem_of_map_to_list.
Qed.

Lemma elem_of_members (l : Lock) (k : ShardKey) :
  k ∈ members l ↔ is_Some (tables l !! k).
Proof.
  unfold members. rewrite list_elem_of_fmap. split.
  - intros ([k' s] & -> & Hin). exists s. by apply elem_of_map_to_list.
  - intros [s Hk]. exists (k, s). split; [done|]. by apply elem_of_map_to_list.
Qed.

Lemma addTables_cons (l : Lock) a tts :
  addTables l (a :: tts) = addTables (addTables l [a]) tts.
Proof. reflexivity. Qed.

Lemma addTables_one (l : Lock) (a : ShardKey) :
  let l' := addTables l [a] in
  lockID l' = lockID l ∧ lockTask l' = lockTask l ∧
  lockDownSchema l' = lockDownSchema l ∧ lockDownTable l' = lockDownTable l ∧
  initSchema l' = initSchema l ∧ joined l' = joined l ∧
  tables l' = match tables l !! a with
              | Some _ => tables l
              | None => <[a := initSchema l]> (tables l)
              end ∧
  ready l' = match tables l !! a with
             | Some _ => ready l
             | None => <[a := false]> (ready l)
             end.
Proof. unfold addTables. simpl. by destruct (tables l !! a). Qed.

Lemma addTables_spec (tts : list ShardKey) (l : Lock) :
  let l' := addTables l tts in
  lockID l' = lockID l ∧ lockTask l' = lockTask l ∧
  lockDownSchema l' = lockDownSchema l ∧ lockDownTable l' = lockDownTable l ∧
  initSchema l' = initSchema l ∧ joined l' = joined l ∧
  (∀ k, tables l' !! k =
        match tables l !! k with
        | Some s => Some s
        | None => if decide (k ∈ tts) then Some (initSchema l) else None
        end) ∧
  (∀ k, is_Some (tables l !! k) → ready l' !! k = ready l !! k).
Proof.
  revert l. induction tts as [|a tts IH]; intros l.
  - cbv zeta. unfold addTables. simpl foldl. split_and!; try done.
    intros k. destruct (tables l !! k); [done|].
    destruct (decide (k ∈ [])) as [Hin|]; [by apply elem_of_nil in Hin|done].
  - rewrite addTables_cons. cbv zeta.
    destruct (IH (addTables l [a])) as (-> & -> & -> & -> & -> & -> & Htab & Hready).
    destruct (addTables_one l a) as (-> & -> & -> & -> & Hinit1 & -> & Htab1 & Hready1).
    split_and!; try done.
    + intros k. rewrite Htab, Htab1, Hinit1.
      destruct (tables l !! a) as [sa|] eqn:Ha.
      * destruct (tables l !! k) eqn:Hk; [done|].
        destruct (decide (k = a)) as [->|Hne]; [congruence|].
        rewrite (decide_ext (k ∈ a :: tts) (k ∈ tts)); [done|].
        rewrite elem_of_cons. clear -Hne. intuition congruence.
      * destruct (decide (k = a)) as [->|Hne].
        -- rewrite lookup_insert_eq, Ha. rewrite decide_True; [done|by left].
        -- rewrite lookup_insert_ne by done. destruct (tables l !! k); [done|].
           rewrite (decide_ext (k ∈ a :: tts) (k ∈ tts)); [done|].
        rewrite elem_of_cons. clear -Hne. intuition congruence.
    + intros k Hk. rewrite Hready, Hready1.
      * destruct (tables l !! a) as [sa|] eqn:Ha; [done|].
        rewrite lookup_insert_ne; [done|]. intros ->. rewrite Ha in Hk. by destruct Hk.
      * rewrite Htab1. destruct (tables l !! a) as [sa|] eqn:Ha; [done|].
        destruct (decide (k = a)) as [->|Hne];
          [rewrite lookup_insert_eq|rewrite lookup_insert_ne by done]; eauto.
Qed.
(** When the registry lists no shard outside the lock, nothing is added. *)
Lemma addTables_tables_known (tts : list ShardKey) (l : Lock) :
  (∀ k, k ∈ tts → is_Some (tables l !! k)) → tables (addTables l tts) = tables l.
Proof.
  intros Hknown. apply map_eq. intros k.
  destruct (addTables_spec tts l) as (_ & _ & _ & _ & _ & _ & -> & _).
  destruct (tables l !! k) eqn:Hk; [done|].
  case_decide as Hin; [|done]. apply Hknown in Hin. rewrite Hk in Hin. by destruct Hin.
Qed.

Lemma NewLock_spec id task downSchema downTable init tts :
  let l := NewLock id task downSchema downTable init tts in
  lockID l = id ∧ lockTask l = task ∧ initSchema l = init ∧ joined l = init ∧
  (∀ k, tables l !! k = if decide (k ∈ tts) then Some init else None).
Proof.
  unfold NewLock.
  match goal with |- context [addTables ?x tts] => destruct (addTables_spec tts x) as
    (-> & -> & _ & _ & -> & -> & Htab & _) end.
  simpl. split_and!; [done..|]. intros k. rewrite Htab. simpl. by rewrite lookup_empty.
Qed.

(** What [TrySync] returns, in terms of the member schemas after the report. *)
Lemma TrySync_unfold (l : Lock) (info : Info) (tts : list ShardKey) (post : Schema) :
  last (TableInfosAfter info) = Some post →
  let l2 := addTables (recordInfo l (shardOf info) post (Version info)) tts in
  TrySync l info tts =
    match joinAll (schemas l2) with
    | None => Some (l2, [], ConflictDetected)
    | Some j =>
        Some (setJoined l2 j,
              if decide (j ≠ joined l ∨ post = j) then DDLs info else [],
              ConflictNone)
    end.
Proof. intros Hpost. unfold TrySync. by rewrite Hpost. Qed.

(** The member schemas after a report: the reporter is at its post-schema,
    new shards at the InitSchema, the others where they were. *)
Lemma reported_tables (l : Lock) (k : ShardKey) (post : Schema) (v : Z)
    (tts : list ShardKey) (k' : ShardKey) :
  tables (addTables (recordInfo l k post v) tts) !! k' =
    if decide (k' = k) then Some post
    else match tables l !! k' with
         | Some s => Some s
         | None => if decide (k' ∈ tts) then Some (initSchema l) else None
         end.
Proof.
  destruct (addTables_spec tts (recordInfo l k post v)) as (_ & _ & _ & _ & _ & _ & -> & _).
  simpl. destruct (decide (k' = k)) as [->|Hk]; [by rewrite lookup_insert_eq|].
  by rewrite lookup_insert_ne.
Qed.

Lemma filter_nil_iff {A} (P : A → Prop) `{∀ x, Decision (P x)} (l : list A) :
  filter P l = [] ↔ ∀ x, x ∈ l → ¬ P x.
Proof.
  induction l as [|a l IH].
  - split; [intros _ x Hx; by apply elem_of_nil in Hx|done].
  - rewrite filter_cons. destruct (decide (P a)) as [Ha|Ha].
    + split; [done|]. intros Hall. exfalso. apply (Hall a); [by left|done].
    + rewrite IH. split.
      * intros Hall x [->|Hx]%elem_of_cons; [done|by apply Hall].
      * intros Hall x Hx. apply Hall. by right.
Qed.

Lemma IsSynced_true (l : Lock) :
  (IsSynced l).1 = true ↔ ∀ k, is_Some (tables l !! k) → flag (ready l) k = true.
Proof.
  unfold IsSynced, remain. simpl. rewrite bool_decide_eq_true, length_zero_iff_nil.
  rewrite filter_nil_iff. setoid_rewrite elem_of_members.
  split; intros Hall k Hk; specialize (Hall k Hk); by destruct (flag (ready l) k).
Qed.

End LockFacts.

(** ** The query surface *)

Module ShowLocksFacts.
Import Optimism JoinerFacts LockFacts.

Lemma elem_of_merge_sort {A} (R : relation A) `{∀ x y, Decision (R x y)} (l : list A) x :
  x ∈ merge_sort R l ↔ x ∈ l.
Proof. by rewrite merge_sort_Permutation. Qed.

Lemma elem_of_ShowLocks (o : Optimist) (task : string) (sources : list string) d :
  d ∈ ShowLocks o task sources ↔
  ∃ id l, lk o !! id = Some l ∧ matches task sources l ∧ d = showLock l.
Proof.
  unfold ShowLocks. rewrite list_elem_of_fmap. split.
  - intros (l & -> & Hl). rewrite elem_of_merge_sort, list_elem_of_filter in Hl.
    destruct Hl as [Hm Hl]. apply list_elem_of_fmap in Hl as ([id l'] & -> & Hin).
    apply elem_of_map_to_list in Hin. by exists id, l'.
  - intros (id & l & Hl & Hm & ->). exists l. split; [done|].
    rewrite elem_of_merge_sort, list_elem_of_filter. split; [done|].
    apply list_elem_of_fmap. exists (id, l). split; [done|]. by apply elem_of_map_to_list.
Qed.

Lemma matches_all (l : Lock) : matches "" [] l.
Proof. split; by left. Qed.

Lemma elem_of_syncedShards (l : Lock) (k : ShardKey) :
  k ∈ syncedShards l ↔ tables l !! k = Some (joined l).
Proof.
  unfold syncedShards. rewrite list_elem_of_fmap. split.
  - intros ([k' s] & -> & [Hs Hin]%list_elem_of_filter). simpl in *. subst.
    by apply elem_of_map_to_list.
  - intros Hk. exists (k, joined l). split; [done|]. apply list_elem_of_filter.
    split; [done|]. by apply elem_of_map_to_list.
Qed.

Lemma elem_of_unsyncedShards (l : Lock) (k : ShardKey) :
  k ∈ unsyncedShards l ↔ ∃ s, tables l !! k = Some s ∧ s ≠ joined l.
Proof.
  unfold unsyncedShards. rewrite list_elem_of_fmap. split.
  - intros ([k' s] & -> & [Hs Hin]%list_elem_of_filter). simpl in *.
    exists s. split; [|done]. by apply elem_of_map_to_list.
  - intros (s & Hk & Hs). exists (k, s). split; [done|]. apply list_elem_of_filter.
    split; [done|]. by apply elem_of_map_to_list.
Qed.

Lemma NoDup_filter_keys (P : ShardKey * Schema → Prop) `{∀ x, Decision (P x)}
    (m : gmap ShardKey Schema) :
  NoDup (filter P (map_to_list m)).*1.
Proof.
  eapply sublist_NoDup; [apply (NoDup_fst_map_to_list m)|].
  apply fmap_sublist, sublist_filter.
Qed.

Lemma NoDup_syncedShards (l : Lock) : NoDup (syncedShards l).
Proof. apply NoDup_filter_keys. Qed.

Lemma NoDup_unsyncedShards (l : Lock) : NoDup (unsyncedShards l).
Proof. apply NoDup_filter_keys. Qed.

Lemma NoDup_members (l : Lock) : NoDup (members l).
Proof. apply NoDup_fst_map_to_list. Qed.

(** [testOptimist], CASE 3: the lock listed with every filter that matches
    it, and nothing for a task or a source that matches no lock. *)
Example ShowLocks_case3 :
  let expectedLock :=
    [ {| dlID := TestOptimist.lockID; dlTask := TestOptimist.task;
         dlMode := ShardOptimistic; dlOwner := "";
         dlDDLs := None;
         dlSynced := ["mysql-replica-1-`foo`.`bar-1`"; "mysql-replica-2-`foo-2`.`bar-3`"];
         dlUnsynced := ["mysql-replica-1-`foo`.`bar-2`"] |} ] in
  ShowLocks TestOptimist.case3.2 "" [] = expectedLock ∧
  ShowLocks TestOptimist.case3.2 TestOptimist.task [] = expectedLock ∧
  ShowLocks TestOptimist.case3.2 "" [TestOptimist.source1] = expectedLock ∧
  ShowLocks TestOptimist.case3.2 "" [TestOptimist.source2] = expectedLock ∧
  ShowLocks TestOptimist.case3.2 "" [TestOptimist.source1; TestOptimist.source2] = expectedLock ∧
  ShowLocks TestOptimist.case3.2 TestOptimist.task
    [TestOptimist.source1; TestOptimist.source2] = expectedLock ∧
  ShowLocks TestOptimist.case3.2 "not-exist" [] = [] ∧
  ShowLocks TestOptimist.case3.2 "" ["not-exist"] = [].
Proof. intros expectedLock. split_and!; by_compute. Qed.

End ShowLocksFacts.

(** ** Drop-column locks *)

Module DropColumnFacts.
Import Optimism JoinerFacts LockFacts ShowLocksFacts.

Section DropColumn.
Context (S : Schema) (c : string).

(** A shard reports the drop while another shard retains the column (or
    joins the lock at the InitSchema): the join is still [S], the reporter
    gets no DDL, and only the reporter's schema changes. *)
Lemma drop_report (l0 : Lock) (info : Info) (tts : list ShardKey) :
  initSchema l0 = S → joined l0 = S →
  (∀ k s, tables l0 !! k = Some s → s = S ∨ s = delete c S) →
  dropsColumn S c info →
  (∃ k, k ≠ shardOf info ∧
        (tables l0 !! k = Some S ∨ (tables l0 !! k = None ∧ k ∈ tts))) →
  ∃ l, TrySync l0 info tts = Some (l, [], ConflictNone) ∧
       initSchema l = S ∧ joined l = S ∧
       (∀ k, tables l !! k =
             if decide (k = shardOf info) then Some (delete c S)
             else match tables l0 !! k with
                  | Some s => Some s
                  | None => if decide (k ∈ tts) then Some S else None
                  end) ∧
       (∃ k, k ≠ shardOf info ∧ tables l !! k = Some S).
Proof.
  intros Hinit Hjoined Hall (Hc & Hpre & Hpost) (k0 & Hk0 & Hretains).
  set (l2 := addTables (recordInfo l0 (shardOf info) (delete c S) (Version info)) tts).
  assert (∀ k, tables l2 !! k =
            if decide (k = shardOf info) then Some (delete c S)
            else match tables l0 !! k with
                 | Some s => Some s
                 | None => if decide (k ∈ tts) then Some S else None
                 end) as Htab.
  { intros k. unfold l2. rewrite reported_tables. by rewrite Hinit. }
  assert (∀ k s, tables l2 !! k = Some s → s = S ∨ s = delete c S) as Hall2.
  { intros k s. rewrite Htab. case_decide; [intros [= <-]; by right|].
    destruct (tables l0 !! k) as [s0|] eqn:Hk; [intros [= <-]; by eapply Hall|].
    case_decide; [intros [= <-]; by left|done]. }
  assert (tables l2 !! k0 = Some S) as Hk0'.
  { rewrite Htab, decide_False by done.
    destruct Hretains as [->|[-> Hin]]; [done|]. by rewrite decide_True. }
  assert (joinAll (schemas l2) = Some S) as Hjoin.
  { apply joinAll_attained.
    - intros s [k Hk]%elem_of_schemas. destruct (Hall2 k s Hk) as [->| ->]; [done|].
      apply delete_below.
    - apply elem_of_schemas. eauto. }
  exists (setJoined l2 S). split_and!.
  - rewrite (TrySync_unfold l0 info tts (delete c S)) by (by rewrite Hpost).
    fold l2. rewrite Hjoin, Hjoined. rewrite decide_False; [done|].
    pose proof (delete_differs S c Hc). intros [?|?]; done.
  - simpl. unfold l2.
    by destruct (addTables_spec tts (recordInfo l0 (shardOf info) (delete c S) (Version info)))
      as (_ & _ & _ & _ & -> & _).
  - done.
  - done.
  - eauto.
Qed.

(** The state of a drop-column lock: the joined schema still has the
    column, the shards that reported the drop are those whose schema is [S]
    without the column, every other shard is at [S], and some shard is. *)
Lemma DropColumnLock_state (dropped : gset ShardKey) (l : Lock) :
  DropColumnLock S c dropped l →
  is_Some (S !! c) ∧ initSchema l = S ∧ joined l = S ∧
  (∀ k s, tables l !! k = Some s → s = S ∨ s = delete c S) ∧
  (∀ k, k ∈ dropped ↔ tables l !! k = Some (delete c S)) ∧
  (∃ k, tables l !! k = Some S) ∧
  (∃ k, k ∈ dropped).
Proof.
  induction 1 as [id task ds dt tts info l ddls stage Hdrop (k0 & Hin & Hk0) Hsync
                 |dropped l0 tts info l ddls stage _ IH Hdrop (k0 & Hk0 & Hretains) Hsync].
  - pose proof (delete_differs S c (proj1 Hdrop)) as Hne.
    destruct (NewLock_spec id task ds dt S tts) as (_ & _ & Hinit & Hjoined & Htab).
    destruct (drop_report (NewLock id task ds dt S tts) info tts) as
      (l' & Hl' & ? & ? & Htab' & (k & _ & ?)); [done|done| |done| |].
    + intros k s. rewrite Htab. case_decide; [intros [= <-]; by left|done].
    + exists k0. split; [done|]. left. rewrite Htab. by rewrite decide_True.
    + rewrite Hl' in Hsync. injection Hsync as <- _ _.
      assert (∀ k s, tables l' !! k = Some s → s = S ∨ s = delete c S) as Hall'.
      { intros k' s. rewrite Htab', Htab. case_decide; [intros [= <-]; by right|].
        case_decide; [intros [= <-]; by left|done]. }
      split_and!; eauto; [apply Hdrop| |exists (shardOf info); set_solver].
      intros k'. rewrite elem_of_singleton, Htab', Htab. case_decide; [done|].
      case_decide; [|done]. split; [done|]. intros [= Heq]. by destruct Hne.
  - destruct IH as (Hc & Hinit & Hjoined & Hall & Hdropped & _ & _).
    pose proof (delete_differs S c Hc) as Hne.
    destruct (drop_report l0 info tts) as
      (l' & Hl' & ? & ? & Htab' & (k & _ & ?)); [done..| |]; [by eauto|].
    rewrite Hl' in Hsync. injection Hsync as <- _ _.
    assert (∀ k s, tables l' !! k = Some s → s = S ∨ s = delete c S) as Hall'.
    { intros k' s. rewrite Htab'. case_decide; [intros [= <-]; by right|].
      destruct (tables l0 !! k') as [s0|] eqn:Hs0; [intros [= <-]; by eapply Hall|].
      case_decide; [intros [= <-]; by left|done]. }
    split_and!; eauto; [|exists (shardOf info); set_solver].
    intros k'. rewrite elem_of_union, elem_of_singleton, Hdropped, Htab'.
    case_decide as Hk'; [by split; auto|].
    destruct (tables l0 !! k') as [s0|] eqn:Hs0.
    + split; [by intros [?|?]|by left].
    + case_decide.
      * split; [by intros [?|?]|]. intros [= Heq]. by destruct Hne.
      * split; [by intros [?|?]|done].
Qed.

End DropColumn.

(** C2: in every lock created by a DROP COLUMN Info in which some shards
    have dropped the column and others still retain it, the joined schema
    still has the column. The shards that have dropped it are in the lock
    with a schema that lacks the column and differs from the joined schema;
    [ShowLocks] lists them, and no other shard, under [Unsynced]. The
    shards that retain the column are at the joined schema; [ShowLocks]
    lists them, and no other shard, under [Synced]. Both lists are sorted,
    neither is empty, and each shard is written
    ["{source}-`{upSchema}`.`{upTable}`"]. *)
Theorem drop_column_lock_shown (S : Schema) (c : string) (dropped : gset ShardKey)
    (o : Optimist) (id : string) (l : Lock) :
  DropColumnLock S c dropped l →
  lk o !! id = Some l →
  let retaining := filter (λ k, k ∉ dropped) (members l) in
  ∃ d, d ∈ ShowLocks o "" [] ∧ dlID d = lockID l ∧
    is_Some (joined l !! c) ∧
    (∀ k, k ∈ dropped →
          ∃ s, tables l !! k = Some s ∧ s !! c = None ∧ s ≠ joined l) ∧
    (∀ k, k ∈ retaining → tables l !! k = Some (joined l)) ∧
    dropped ≠ ∅ ∧ retaining ≠ [] ∧
    dlUnsynced d ≡ₚ shardName <$> elements dropped ∧
    dlSynced d ≡ₚ shardName <$> retaining ∧
    Sorted String.le (dlUnsynced d) ∧ Sorted String.le (dlSynced d) ∧
    (∀ source upSchema upTable, (source, upSchema, upTable) ∈ dropped →
       source +:+ "-`" +:+ upSchema +:+ "`.`" +:+ upTable +:+ "`" ∈ dlUnsynced d) ∧
    (∀ source upSchema upTable, (source, upSchema, upTable) ∈ retaining →
       source +:+ "-`" +:+ upSchema +:+ "`.`" +:+ upTable +:+ "`" ∈ dlSynced d).
Proof.
  intros Hlock Hl retaining.
  destruct (DropColumnLock_state S c dropped l Hlock)
    as (Hc & _ & Hjoined & Hall & Hdropped & [kS HkS] & [kD HkD]).
  pose proof (delete_differs S c Hc) as Hne.
  assert (∀ k, k ∈ retaining ↔ tables l !! k = Some S) as Hret.
  { intros k. unfold retaining. rewrite list_elem_of_filter, elem_of_members, Hdropped. split.
    - intros [Hnot [s Hs]]. by destruct (Hall k s Hs) as [-> | ->].
    - intros Hk. rewrite Hk. split; [|by eauto]. intros [= Heq]. by destruct Hne. }
  assert (unsyncedShards l ≡ₚ elements dropped) as Hun.
  { apply NoDup_Permutation; [apply NoDup_unsyncedShards|apply NoDup_elements|].
    intros k. rewrite elem_of_unsyncedShards, elem_of_elements, Hdropped, Hjoined. split.
    - intros (s & Hs & Hsne). by destruct (Hall k s Hs) as [->| ->].
    - intros Hk. by exists (delete c S). }
  assert (syncedShards l ≡ₚ retaining) as Hsy.
  { apply NoDup_Permutation; [apply NoDup_syncedShards| |].
    - apply NoDup_filter, NoDup_members.
    - intros k. by rewrite elem_of_syncedShards, Hret, Hjoined. }
  assert (dlUnsynced (showLock l) ≡ₚ shardName <$> elements dropped) as HU.
  { simpl. by rewrite merge_sort_Permutation, Hun. }
  assert (dlSynced (showLock l) ≡ₚ shardName <$> retaining) as HS.
  { simpl. by rewrite merge_sort_Permutation, Hsy. }
  exists (showLock l). split_and!; try done.
  - apply elem_of_ShowLocks. exists id, l. split_and!; [done|apply matches_all|done].
  - by rewrite Hjoined.
  - intros k Hk%Hdropped. exists (delete c S). split_and!; [done| |by rewrite Hjoined].
    apply lookup_delete_eq.
  - intros k Hk%Hret. by rewrite Hjoined.
  - intros Hempty. rewrite Hempty in HkD. by apply elem_of_empty in HkD.
  - intros Hnil. apply Hret in HkS. rewrite Hnil in HkS. by apply elem_of_nil in HkS.
  - apply (Sorted_merge_sort String.le).
  - apply (Sorted_merge_sort String.le).
  - intros source upSchema upTable Hk. rewrite HU.
    apply (list_elem_of_fmap_2 shardName _ (source, upSchema, upTable)).
    by apply elem_of_elements.
  - intros source upSchema upTable Hk. rewrite HS.
    by apply (list_elem_of_fmap_2 shardName _ (source, upSchema, upTable)).
Qed.

Lemma TrySync_afterSync (l : Lock) (info : Info) (tts : list ShardKey) :
  is_Some (last (TableInfosAfter info)) →
  ∃ ddls stage, TrySync l info tts = Some (afterSync l info tts, ddls, stage).
Proof.
  intros [post Hpost]. unfold afterSync.
  rewrite (TrySync_unfold l info tts post Hpost).
  destruct (joinAll _); eauto.
Qed.

(** The lock created by [i31] in [testOptimist] is a drop-column lock in
    which shard 1 has dropped [c2]. *)
Lemma i31_creates_drop_column_lock :
  let tts := FindTables (tk TestOptimist.beforeDrop.2) TestOptimist.task
               TestOptimist.downSchema TestOptimist.downTable in
  let info := stamp TestOptimist.beforeDrop.1 TestOptimist.i31 in
  DropColumnLock TestOptimist.ti2 "c2" {[ shardOf info ]}
    (afterSync (NewLock TestOptimist.lockID TestOptimist.task TestOptimist.downSchema
                  TestOptimist.downTable TestOptimist.ti2 tts) info tts).
Proof.
  intros tts info.
  destruct (TrySync_afterSync
              (NewLock TestOptimist.lockID TestOptimist.task TestOptimist.downSchema
                 TestOptimist.downTable TestOptimist.ti2 tts) info tts)
    as (ddls & stage & Hsync).
  { by_decide. }
  eapply dropLockCreated; [|exists ("mysql-replica-2", "foo-2", "bar-3")|exact Hsync].
  - split_and!; [by_decide|by_compute|by_compute].
  - split; by_decide.
Qed.

(** [testOptimist]: the lock that [i31] creates, in a coordinator that
    holds it. *)
Lemma drop_column_lock_shown_witness :
  let S := TestOptimist.ti2 in
  let tts := FindTables (tk TestOptimist.beforeDrop.2) TestOptimist.task
               TestOptimist.downSchema TestOptimist.downTable in
  let info := stamp TestOptimist.beforeDrop.1 TestOptimist.i31 in
  let dropped : gset ShardKey := {[ shardOf info ]} in
  let l := afterSync (NewLock TestOptimist.lockID TestOptimist.task TestOptimist.downSchema
                        TestOptimist.downTable S tts) info tts in
  let o := {| tk := tk TestOptimist.beforeDrop.2; lk := {[ TestOptimist.lockID := l ]} |} in
  let retaining := filter (λ k, k ∉ dropped) (members l) in
  ∃ d, d ∈ ShowLocks o "" [] ∧ dlID d = lockID l ∧
    is_Some (joined l !! "c2") ∧
    (∀ k, k ∈ dropped →
          ∃ s, tables l !! k = Some s ∧ s !! "c2" = None ∧ s ≠ joined l) ∧
    (∀ k, k ∈ retaining → tables l !! k = Some (joined l)) ∧
    dropped ≠ ∅ ∧ retaining ≠ [] ∧
    dlUnsynced d ≡ₚ shardName <$> elements dropped ∧
    dlSynced d ≡ₚ shardName <$> retaining ∧
    Sorted String.le (dlUnsynced d) ∧ Sorted String.le (dlSynced d) ∧
    (∀ source upSchema upTable, (source, upSchema, upTable) ∈ dropped →
       source +:+ "-`" +:+ upSchema +:+ "`.`" +:+ upTable +:+ "`" ∈ dlUnsynced d) ∧
    (∀ source upSchema upTable, (source, upSchema, upTable) ∈ retaining →
       source +:+ "-`" +:+ upSchema +:+ "`.`" +:+ upTable +:+ "`" ∈ dlSynced d).
Proof.
  intros S tts info dropped l o.
  apply (drop_column_lock_shown S "c2" dropped o TestOptimist.lockID l).
  - apply i31_creates_drop_column_lock.
  - apply lookup_singleton_eq.
Defined.

(** [testOptimist], after [i31]: [expectedLock] lists shard 2 (which still
    has [c2]) as synced and shard 1 (which dropped it) as un-synced; after
    [i33] both shards are synced. *)
Example ShowLocks_after_i31 :
  ShowLocks TestOptimist.afterDrop1.2 "" [] =
    [ {| dlID := TestOptimist.lockID; dlTask := TestOptimist.task;
         dlMode := ShardOptimistic; dlOwner := ""; dlDDLs := None;
         dlSynced := ["mysql-replica-2-`foo-2`.`bar-3`"];
         dlUnsynced := ["mysql-replica-1-`foo`.`bar-1`"] |} ].
Proof. vm_compute. reflexivity. Qed.

Example ShowLocks_after_i33 :
  ShowLocks TestOptimist.afterDrop2.2 "" [] =
    [ {| dlID := TestOptimist.lockID; dlTask := TestOptimist.task;
         dlMode := ShardOptimistic; dlOwner := ""; dlDDLs := None;
         dlSynced := ["mysql-replica-1-`foo`.`bar-1`"; "mysql-replica-2-`foo-2`.`bar-3`"];
         dlUnsynced := [] |} ].
Proof. vm_compute. reflexivity. Qed.

End DropColumnFacts.

(** ** The operations the test file asserts

    The model of [TrySync] is checked against every operation and every
    synchronisation state that [optimist_test.go] asserts after an Info. *)

Module ScenarioFacts.
Import Optimism.

(** [testOptimist]: [op11] and [op12] carry [DDLs1], [op21] carries [DDLs2],
    [op23] the CREATE TABLE statement of [i23], [op31] nothing and [op33]
    [DDLs3], every one with [ConflictNone]. *)
Example operations_of_testOptimist :
  TestOptimist.operationOf TestOptimist.afterI11 TestOptimist.i11
    = Some (TestOptimist.DDLs1, ConflictNone) ∧
  TestOptimist.operationOf TestOptimist.afterI12 TestOptimist.i12
    = Some (TestOptimist.DDLs1, ConflictNone) ∧
  TestOptimist.operationOf TestOptimist.afterI21 TestOptimist.i21
    = Some (TestOptimist.DDLs2, ConflictNone) ∧
  TestOptimist.operationOf TestOptimist.case3 TestOptimist.i23
    = Some (DDLs TestOptimist.i23, ConflictNone) ∧
  TestOptimist.operationOf TestOptimist.afterDrop1 TestOptimist.i31
    = Some ([], ConflictNone) ∧
  TestOptimist.operationOf TestOptimist.afterDrop2 TestOptimist.i33
    = Some (TestOptimist.DDLs3, ConflictNone).
Proof. split_and!; by_compute. Qed.

(** [TestOptimistLockConflict]: [op1] carries [DDLs1]; [op2] carries no DDLs
    and [ConflictDetected]; [op3], the reply to the Info that takes shard 2
    back to [ti0], carries no DDLs and [ConflictNone]. *)
Example operations_of_TestOptimistLockConflict :
  let operationOf (s : KV * Optimist) (i : Info) :=
    (fun op => (opDDLs op, opConflictStage op)) <$> kvOperations s.1 !! keyOf i in
  operationOf TestOptimistLockConflict.afterI1 TestOptimistLockConflict.i1
    = Some (TestOptimistLockConflict.DDLs1, ConflictNone) ∧
  operationOf TestOptimistLockConflict.conflicted TestOptimistLockConflict.i2
    = Some ([], ConflictDetected) ∧
  operationOf TestOptimistLockConflict.afterI3 TestOptimistLockConflict.i3
    = Some ([], ConflictNone).
Proof. intros operationOf. split_and!; by_compute. Qed.

(** [testOptimist]: the synchronisation state of the lock after each Info. *)
Example IsSynced_in_testOptimist :
  IsSynced (lockAt TestOptimist.afterI11 TestOptimist.lockID) = (false, 1%nat) ∧
  IsSynced (lockAt TestOptimist.afterI12 TestOptimist.lockID) = (true, 0%nat) ∧
  IsSynced (lockAt TestOptimist.afterI21 TestOptimist.lockID) = (false, 1%nat) ∧
  IsSynced (lockAt TestOptimist.case3 TestOptimist.lockID) = (false, 1%nat) ∧
  IsSynced (lockAt TestOptimist.afterDrop1 TestOptimist.lockID) = (false, 1%nat) ∧
  IsSynced (lockAt TestOptimist.afterDrop2 TestOptimist.lockID) = (true, 0%nat).
Proof. split_and!; by_compute. Qed.

End ScenarioFacts.

(** ** The Reconciler *)

Module ReconcilerFacts.
Import Optimism JoinerFacts LockFacts.

Lemma removeTables_spec (ks : list ShardKey) (l : Lock) :
  let l' := foldl TryRemoveTable l ks in
  lockID l' = lockID l ∧ lockTask l' = lockTask l ∧ joined l' = joined l ∧
  (∀ k, tables l' !! k = if decide (k ∈ ks) then None else tables l !! k) ∧
  (∀ k, ready l' !! k = if decide (k ∈ ks) then None else ready l !! k) ∧
  (∀ k, done l' !! k = if decide (k ∈ ks) then None else done l !! k).
Proof.
  revert l. induction ks as [|a ks IH]; intros l.
  - simpl. split_and!; try done; intros k; by rewrite decide_False by apply not_elem_of_nil.
  - simpl. destruct (IH (TryRemoveTable l a)) as (-> & -> & -> & Htab & Hready & Hdone).
    simpl. split_and!; try done; intros k; rewrite ?Htab, ?Hready, ?Hdone; simpl.
    all: destruct (decide (k = a)) as [->|Hne];
      [rewrite lookup_delete_eq, (decide_True (P := a ∈ a :: ks)) by (by left);
       by destruct (decide (a ∈ ks))
      |rewrite lookup_delete_ne by done;
       apply decide_ext; rewrite elem_of_cons; clear -Hne; intuition congruence].
Qed.

(** The shards of a source-tables record are shards of its source. *)
Lemma registered_source (st : SourceTables) (k : ShardKey) :
  k ∈ registered (Some st) → k.1.1 = stSource st.
Proof. unfold registered. by intros (e & -> & _)%list_elem_of_fmap. Qed.

(** C7: when [PutSourceTablesDeleteInfo] removes the table of a shard from
    the source-tables record while the shard takes part in a lock, the
    coordinator removes the shard from the lock. The shards that leave are
    the tables of that source which the new record no longer lists; every
    other shard of the lock, the shards of other sources among them, stays
    with its schema, its ready flag and its done flag, and the joined schema
    stays. [IsSynced] of the lock is then true exactly when every remaining
    shard is ready, whether or not the shard that left was. In the store the
    Info of the deleted table is gone and the record is the new one. *)
Theorem dropped_table_leaves_lock (kv : KV) (o : Optimist) (st : SourceTables)
    (i : Info) (id : string) (l : Lock) (k : ShardKey) :
  lk o !! id = Some l →
  lockTask l = stTask st →
  is_Some (tables l !! k) →
  k ∈ registered (tk o !! (stTask st, stSource st)) →
  k ∉ registered (Some st) →
  stSource <$> tk o !! (stTask st, stSource st) = Some (stSource st) →
  let s' := step (kv, o) (WPutSourceTablesDeleteInfo st i) in
  let gone := λ k', k' ∈ registered (tk o !! (stTask st, stSource st)) ∧
                    k' ∉ registered (Some st) in
  ∃ l', Locks s'.2 !! id = Some l' ∧
    gone k ∧
    (∀ k', gone k' → k'.1.1 = stSource st ∧ tables l' !! k' = None) ∧
    (∀ k', ¬ gone k' →
           tables l' !! k' = tables l !! k' ∧ ready l' !! k' = ready l !! k' ∧
           done l' !! k' = done l !! k') ∧
    (∀ k', k'.1.1 ≠ stSource st → tables l' !! k' = tables l !! k') ∧
    joined l' = joined l ∧
    ((IsSynced l').1 = true ↔
     ∀ k', is_Some (tables l !! k') → ¬ gone k' → flag (ready l) k' = true) ∧
    kvInfos s'.1 !! keyOf i = None ∧
    kvSourceTables s'.1 !! (stTask st, stSource st) = Some st ∧
    tk s'.2 !! (stTask st, stSource st) = Some st.
Proof.
  intros Hl Htask Hk Hold Hnew Hsource. cbv zeta.
  cbn [step snd fst PutSourceTablesDeleteInfo handleSourceTables Locks lk tk kvInfos
       kvSourceTables].
  set (dropped := filter (fun k => k ∉ registered (Some st))
                    (registered (tk o !! (stTask st, stSource st)))).
  destruct (removeTables_spec dropped l) as (_ & _ & Hjoined & Htab & Hready & Hdone).
  assert (∀ k', k' ∈ dropped ↔
                k' ∈ registered (tk o !! (stTask st, stSource st)) ∧
                k' ∉ registered (Some st)) as Hgone.
  { intros k'. unfold dropped. rewrite list_elem_of_filter. tauto. }
  assert (∀ k', k' ∈ dropped → k'.1.1 = stSource st) as Hsrc.
  { intros k' [Hreg _]%Hgone.
    destruct (tk o !! (stTask st, stSource st)) as [st0|] eqn:Hst0; [|done].
    injection Hsource as <-. by apply registered_source. }
  exists (foldl TryRemoveTable l dropped). split_and!.
  - unfold Locks, removeFromLocks. simpl. rewrite lookup_fmap, Hl. simpl.
    by rewrite decide_True.
  - done.
  - done.
  - intros k' Hk'. apply Hgone in Hk'. split; [by apply Hsrc|].
    by rewrite Htab, decide_True.
  - intros k' Hk'. rewrite <- Hgone in Hk'.
    by rewrite Htab, Hready, Hdone, !decide_False.
  - intros k' Hk'. rewrite Htab, decide_False; [done|]. intros Hin. by apply Hsrc in Hin.
  - done.
  - rewrite IsSynced_true. split.
    + intros Hall k' Hk' Hstay. rewrite <- Hgone in Hstay.
      specialize (Hall k'). unfold flag in *.
      rewrite Htab, Hready, !decide_False in Hall by done. by apply Hall.
    + intros Hall k'. rewrite Htab. case_decide as Hin; [by intros [? ?]|].
      intros Hk'. unfold flag in *. rewrite Hready, decide_False by done.
      apply Hall; [done|]. by rewrite <- Hgone.
  - apply lookup_delete_eq.
  - apply lookup_insert_eq.
  - apply lookup_insert_eq.
Qed.

Lemma lockAt_Some (s : KV * Optimist) (id : string) :
  is_Some (lk s.2 !! id) → lk s.2 !! id = Some (lockAt s id).
Proof. intros [l Hl]. unfold lockAt. by rewrite Hl. Qed.

(** [testOptimist], CASE 3: the lock waits for [bar-2] of shard 1, which
    has reported nothing, when [st31] takes that table away. *)
Lemma dropped_table_leaves_lock_witness :
  let kv := TestOptimist.case3.1 in
  let o := TestOptimist.case3.2 in
  let st := TestOptimist.st31 in
  let l := lockAt TestOptimist.case3 TestOptimist.lockID in
  let k := ("mysql-replica-1", "foo", "bar-2") in
  let s' := step (kv, o) (WPutSourceTablesDeleteInfo st TestOptimist.i12) in
  let gone := λ k', k' ∈ registered (tk o !! (stTask st, stSource st)) ∧
                    k' ∉ registered (Some st) in
  ∃ l', Locks s'.2 !! TestOptimist.lockID = Some l' ∧
    gone k ∧
    (∀ k', gone k' → k'.1.1 = stSource st ∧ tables l' !! k' = None) ∧
    (∀ k', ¬ gone k' →
           tables l' !! k' = tables l !! k' ∧ ready l' !! k' = ready l !! k' ∧
           done l' !! k' = done l !! k') ∧
    (∀ k', k'.1.1 ≠ stSource st → tables l' !! k' = tables l !! k') ∧
    joined l' = joined l ∧
    ((IsSynced l').1 = true ↔
     ∀ k', is_Some (tables l !! k') → ¬ gone k' → flag (ready l) k' = true) ∧
    kvInfos s'.1 !! keyOf TestOptimist.i12 = None ∧
    kvSourceTables s'.1 !! (stTask st, stSource st) = Some st ∧
    tk s'.2 !! (stTask st, stSource st) = Some st.
Proof.
  intros kv o st l k.
  apply (dropped_table_leaves_lock kv o st TestOptimist.i12 TestOptimist.lockID l k).
  - apply (lockAt_Some TestOptimist.case3). by_decide.
  - by_compute.
  - by_decide.
  - by_decide.
  - by_decide.
  - by_compute.
Defined.

(** [testOptimist], CASE 3: the lock is not synced while it waits for
    [bar-2]; once the table is dropped the lock is synced, with the two
    shards that reported, and the shard of the other source is among them. *)
Example unsynced_lock_becomes_synced :
  let s := TestOptimist.case3 in
  let s' := step s (WPutSourceTablesDeleteInfo TestOptimist.st31 TestOptimist.i12) in
  IsSynced (lockAt s TestOptimist.lockID) = (false, 1%nat) ∧
  flag (ready (lockAt s TestOptimist.lockID)) ("mysql-replica-1", "foo", "bar-2") = false ∧
  IsSynced (lockAt s' TestOptimist.lockID) = (true, 0%nat) ∧
  members (lockAt s' TestOptimist.lockID)
    ≡ₚ [("mysql-replica-1", "foo", "bar-1"); ("mysql-replica-2", "foo-2", "bar-3")].
Proof. intros s s'. split_and!; [by_compute..|by_decide]. Qed.

(** [testOptimist]: the test puts [i12] before it drops the table; after
    the deletion the lock is synced again, with the shards the test reads
    from [Ready()]. *)
Example lock_after_delete :
  let l := lockAt TestOptimist.afterDelete TestOptimist.lockID in
  IsSynced l = (true, 0%nat) ∧
  Ready l !! ("mysql-replica-1", "foo", "bar-1") = Some true ∧
  Ready l !! ("mysql-replica-1", "foo", "bar-2") = None ∧
  Ready l !! ("mysql-replica-2", "foo-2", "bar-3") = Some true ∧
  kvInfos TestOptimist.afterDelete.1 !! keyOf TestOptimist.i12 = None.
Proof. intros l. split_and!; by_compute. Qed.

End ReconcilerFacts.

(** ** The Info sort order *)

Module SortInfosFacts.
Import Optimism JoinerFacts.

Lemma groupInsert_keys (i : Info) (gs : list (ShardKey * list Info)) :
  (groupInsert i gs).*1 =
    if decide (shardOf i ∈ gs.*1) then gs.*1 else gs.*1 ++ [shardOf i].
Proof.
  induction gs as [|g gs IH].
  - rewrite decide_False by apply not_elem_of_nil. done.
  - cbn [groupInsert]. rewrite fmap_cons.
    destruct (decide (g.1 = shardOf i)) as [Heq|Hne].
    + rewrite decide_True; [done|]. rewrite Heq. by left.
    + rewrite fmap_cons, IH. destruct (decide (shardOf i ∈ gs.*1)) as [Hin|Hin].
      * rewrite decide_True; [done|]. by right.
      * rewrite decide_False; [done|]. intros [?|?]%elem_of_cons; congruence.
Qed.

Lemma groupInsert_fresh (i : Info) (gs : list (ShardKey * list Info)) :
  shardOf i ∉ gs.*1 → groupInsert i gs = gs ++ [(shardOf i, [i])].
Proof.
  induction gs as [|g gs IH]; simpl; [done|]. intros Hnot.
  apply not_elem_of_cons in Hnot as [Hne Hnot].
  rewrite decide_False by congruence. by rewrite IH.
Qed.

Lemma groupInsert_Permutation (i : Info) (gs : list (ShardKey * list Info)) :
  mjoin (groupInsert i gs).*2 ≡ₚ i :: mjoin gs.*2.
Proof.
  induction gs as [|g gs IH]; simpl; [done|].
  destruct (decide (g.1 = shardOf i)); simpl.
  - rewrite <- (assoc_L (++)). simpl. by rewrite <- Permutation_middle.
  - rewrite IH. by rewrite <- Permutation_middle.
Qed.

Lemma groupInsert_ok (i : Info) (gs : list (ShardKey * list Info)) :
  GroupsOK gs → GroupsOK (groupInsert i gs).
Proof.
  intros [Hnodup Hall]. split.
  - rewrite groupInsert_keys. case_decide as Hin; [done|].
    apply NoDup_app. split_and!; [done| |apply NoDup_singleton].
    intros k Hk ->%list_elem_of_singleton. done.
  - clear Hnodup. induction Hall as [|g gs [Hne Hg] Hgs IH]; simpl.
    + repeat constructor; done.
    + destruct (decide (g.1 = shardOf i)) as [Heq|Hneq].
      * constructor; [|done]. simpl. split; [by destruct (g.2)|].
        apply Forall_app. split; [done|]. by repeat constructor.
      * by constructor.
Qed.

Lemma groupInfos_from (l : list Info) (gs : list (ShardKey * list Info)) :
  GroupsOK gs →
  let gs' := foldl (fun gs i => groupInsert i gs) gs l in
  GroupsOK gs' ∧ mjoin gs'.*2 ≡ₚ mjoin gs.*2 ++ l.
Proof.
  revert gs. induction l as [|i l IH]; intros gs Hok; simpl.
  - by rewrite (right_id_L [] (++)).
  - destruct (IH (groupInsert i gs) (groupInsert_ok i gs Hok)) as [Hok' Hperm].
    split; [done|]. rewrite Hperm, groupInsert_Permutation.
    by rewrite <- Permutation_middle.
Qed.

Lemma groupInfos_spec (l : list Info) :
  GroupsOK (groupInfos l) ∧ mjoin (groupInfos l).*2 ≡ₚ l.
Proof.
  destruct (groupInfos_from l []) as [Hok Hperm].
  - split; [apply NoDup_nil_2|constructor].
  - done.
Qed.

(** Distinct shards: every group is a single Info, in the order of the list. *)
Lemma groupInfos_distinct_from (l : list Info) (gs : list (ShardKey * list Info)) :
  NoDup (gs.*1 ++ (shardOf <$> l)) →
  foldl (fun gs i => groupInsert i gs) gs l = gs ++ ((fun i => (shardOf i, [i])) <$> l).
Proof.
  revert gs. induction l as [|i l IH]; intros gs Hnodup; simpl.
  - by rewrite (right_id_L [] (++)).
  - rewrite groupInsert_fresh.
    + rewrite IH; [by rewrite <- (assoc_L (++))|].
      rewrite fmap_app. simpl. by rewrite <- (assoc_L (++)).
    + apply NoDup_app in Hnodup as (_ & Hdisj & _). intros Hin.
      apply (Hdisj _ Hin). by left.
Qed.

Global Instance version_le_total : Total version_le.
Proof. intros a b. unfold version_le. lia. Qed.
Global Instance group_le_total : Total group_le.
Proof. intros a b. unfold group_le. lia. Qed.
Global Instance revision_le_trans : Transitive revision_le.
Proof. intros a b c. unfold revision_le. lia. Qed.

Lemma sortedGroups_spec (l : list Info) :
  let gs := sortedGroups l in
  NoDup gs.*1 ∧
  Sorted group_le gs ∧
  (∀ g, g ∈ gs → g.2 ≠ [] ∧ Forall (fun i => shardOf i = g.1) g.2 ∧
                  Sorted version_le g.2) ∧
  mjoin gs.*2 ≡ₚ l.
Proof.
  destruct (groupInfos_spec l) as [[Hnodup Hall] Hperm]. cbv zeta. unfold sortedGroups.
  set (f := fun g : ShardKey * list Info => (g.1, merge_sort version_le g.2)).
  assert ((f <$> groupInfos l).*1 = (groupInfos l).*1) as Hkeys.
  { rewrite <- list_fmap_compose. by apply list_fmap_ext. }
  split_and!.
  - rewrite merge_sort_Permutation. by rewrite Hkeys.
  - apply (Sorted_merge_sort group_le).
  - intros g. rewrite merge_sort_Permutation. intros (g0 & -> & Hg0)%list_elem_of_fmap.
    rewrite list.Forall_forall in Hall. destruct (Hall g0 Hg0) as [Hne Hsame]. simpl.
    split_and!.
    + intros Hnil. apply Hne. apply Permutation_nil_r.
      by rewrite <- Hnil, merge_sort_Permutation.
    + by rewrite merge_sort_Permutation.
    + apply (Sorted_merge_sort version_le).
  - etrans; [apply join_Permutation, fmap_Permutation,
               (merge_sort_Permutation group_le)|].
    etrans; [|exact Hperm]. clear. subst f.
    induction (groupInfos l) as [|g gs IH]; simpl; [done|].
    apply Permutation_app; [apply (merge_sort_Permutation version_le)|done].
Qed.

Lemma Sorted_singletons (gs : list (ShardKey * list Info)) :
  Sorted group_le gs → (∀ g, g ∈ gs → ∃ i, g.2 = [i]) →
  Sorted revision_le (mjoin gs.*2).
Proof.
  induction 1 as [|g gs _ IH Hhd]; intros Hsingle; simpl; [constructor|].
  destruct (Hsingle g) as [i Hi]; [by left|]. rewrite Hi. simpl.
  constructor. { apply IH. intros g' Hg'. apply Hsingle. by right. }
  destruct Hhd as [|g' gs' Hle]; simpl; [constructor|].
  destruct (Hsingle g') as [i' Hi']; [right; by left|]. rewrite Hi'. simpl.
  constructor. unfold group_le in Hle. by rewrite Hi, Hi' in Hle.
Qed.

(** On a snapshot with one Info per shard the replay order is the ascending
    order of the store revisions. *)
Lemma sortInfos_by_revision (ifm : gmap InfoKey Info) :
  NoDup (shardOf <$> (map_to_list ifm).*2) →
  Sorted revision_le (sortInfos ifm).
Proof.
  intros Hnodup. unfold sortInfos. apply Sorted_singletons.
  - apply sortedGroups_spec.
  - intros g. unfold sortedGroups, groupInfos.
    rewrite (groupInfos_distinct_from _ []) by done.
    rewrite merge_sort_Permutation. simpl.
    intros (g0 & -> & (i & -> & _)%list_elem_of_fmap)%list_elem_of_fmap. by exists i.
Qed.

Section Replay.
Import TestSortInfos.

Lemma stamp_fresh (kv : KV) (i : Info) :
  kvInfos kv !! keyOf i = None → stamp kv i = withVersion i 1 (kvRevision kv + 1).
Proof. intros Hnone. unfold stamp, withVersion. by rewrite Hnone. Qed.

Lemma stamp_again (kv : KV) (i old : Info) :
  kvInfos kv !! keyOf i = Some old →
  stamp kv i = withVersion i (Version old + 1) (kvRevision kv + 1).
Proof. intros Hold. unfold stamp, withVersion. by rewrite Hold. Qed.

Lemma three_infos (A1 A2 B C : Info) :
  (map_to_list (<[keyOf i11 := A2]> (<[keyOf i21 := C]> (<[keyOf i12 := B]>
     (<[keyOf i11 := A1]> (∅ : gmap InfoKey Info)))))).*2 ≡ₚ [A2; C; B].
Proof.
  assert (keyOf i12 ≠ keyOf i11) as H12 by by_decide.
  assert (keyOf i21 ≠ keyOf i11) as H21 by by_decide.
  assert (keyOf i21 ≠ keyOf i12) as H2112 by by_decide.
  rewrite (insert_insert_ne ∅ (keyOf i12) (keyOf i11)) by done.
  rewrite (insert_insert_ne _ (keyOf i21) (keyOf i11)) by done.
  rewrite insert_insert_eq.
  rewrite !map_to_list_insert, map_to_list_empty; [done|..].
  - apply lookup_empty.
  - rewrite lookup_insert_ne by done. apply lookup_empty.
  - rewrite !lookup_insert_ne by done. apply lookup_empty.
Qed.

(** The snapshot after the four puts of [testSortInfos]. *)
Lemma snapshot_of_test (kv : KV) :
  kvInfos kv = ∅ →
  (map_to_list (GetAllInfo (kv4 kv))).*2 ≡ₚ
    [withVersion i12 1 (rev2 kv); withVersion i21 1 (rev3 kv); withVersion i11 2 (rev4 kv)].
Proof.
  intros Hempty.
  assert (kvInfos (kv1 kv) = <[keyOf i11 := withVersion i11 1 (rev1 kv)]> ∅) as H1.
  { unfold kv1, rev1. simpl. rewrite stamp_fresh, Hempty; [done|]. by rewrite Hempty. }
  assert (kvInfos (kv2 kv) =
            <[keyOf i12 := withVersion i12 1 (rev2 kv)]> (kvInfos (kv1 kv))) as H2.
  { unfold kv2, rev2. simpl. rewrite stamp_fresh; [done|]. rewrite H1.
    rewrite lookup_insert_ne by by_decide. apply lookup_empty. }
  assert (kvInfos (kv3 kv) =
            <[keyOf i21 := withVersion i21 1 (rev3 kv)]> (kvInfos (kv2 kv))) as H3.
  { unfold kv3, rev3. simpl. rewrite stamp_fresh; [done|]. rewrite H2, H1.
    rewrite !lookup_insert_ne by by_decide. apply lookup_empty. }
  assert (kvInfos (kv4 kv) =
            <[keyOf i11 := withVersion i11 2 (rev4 kv)]> (kvInfos (kv3 kv))) as H4.
  { unfold kv4, rev4. simpl.
    rewrite (stamp_again _ _ (withVersion i11 1 (rev1 kv))); [done|].
    rewrite H3, H2, H1. rewrite !lookup_insert_ne by by_decide. apply lookup_insert_eq. }
  unfold GetAllInfo. rewrite H4, H3, H2, H1. rewrite three_infos.
  apply Permutation_rev.
Qed.

Lemma revisions_of_test (kv : KV) :
  rev1 kv < rev2 kv ∧ rev2 kv < rev3 kv ∧ rev3 kv < rev4 kv.
Proof. unfold rev4, rev3, rev2, rev1, kv3, kv2, kv1. simpl. lia. Qed.

Lemma sortInfos_of_test (kv : KV) :
  kvInfos kv = ∅ →
  sortInfos (GetAllInfo (kv4 kv)) =
    [withVersion i12 1 (rev2 kv); withVersion i21 1 (rev3 kv); withVersion i11 2 (rev4 kv)].
Proof.
  intros Hempty. pose proof (snapshot_of_test kv Hempty) as Hsnap.
  pose proof (revisions_of_test kv) as (_ & H23 & H34).
  assert (sortInfos (GetAllInfo (kv4 kv)) ≡ₚ
            [withVersion i12 1 (rev2 kv); withVersion i21 1 (rev3 kv);
             withVersion i11 2 (rev4 kv)]) as Hperm.
  { rewrite <- Hsnap. unfold sortInfos. apply sortedGroups_spec. }
  apply (Sorted_unique_strong revision_le); [| | |done].
  - intros x1 x2 Hx1 Hx2. unfold revision_le. rewrite Hperm in Hx1.
    rewrite !elem_of_cons, elem_of_nil in Hx1. rewrite !elem_of_cons, elem_of_nil in Hx2.
    destruct Hx1 as [->|[->|[->|[]]]], Hx2 as [->|[->|[->|[]]]]; simpl; intros; try done; lia.
  - apply sortInfos_by_revision. rewrite Hsnap. by_decide.
  - repeat constructor; unfold revision_le; simpl; lia.
Qed.

End Replay.
(** C4: [sortInfos] returns the Infos of the snapshot, grouped by
    (source, upSchema, upTable): no two groups share a shard, every group is
    sorted by ascending Version, and the groups come in ascending order of
    the store Revision of their latest member. For the put history of
    [testSortInfos] on a store without Infos (A = [i11], B = [i12],
    C = [i21], then A again, at increasing revisions) it returns B, C, A,
    with A at version 2. *)
Theorem sortInfos_order :
  (∀ ifm : gmap InfoKey Info,
     let gs := sortedGroups (map_to_list ifm).*2 in
     sortInfos ifm = mjoin gs.*2 ∧
     sortInfos ifm ≡ₚ (map_to_list ifm).*2 ∧
     NoDup gs.*1 ∧
     (∀ g, g ∈ gs → g.2 ≠ [] ∧ Forall (fun i => shardOf i = g.1) g.2 ∧
                     Sorted version_le g.2) ∧
     Sorted group_le gs) ∧
  (∀ kv : KV,
     kvInfos kv = ∅ →
     TestSortInfos.rev1 kv < TestSortInfos.rev2 kv ∧
     TestSortInfos.rev2 kv < TestSortInfos.rev3 kv ∧
     TestSortInfos.rev3 kv < TestSortInfos.rev4 kv ∧
     sortInfos (GetAllInfo (TestSortInfos.kv4 kv)) =
       [TestSortInfos.withVersion TestSortInfos.i12 1 (TestSortInfos.rev2 kv);
        TestSortInfos.withVersion TestSortInfos.i21 1 (TestSortInfos.rev3 kv);
        TestSortInfos.withVersion TestSortInfos.i11 2 (TestSortInfos.rev4 kv)]).
Proof.
  split.
  - intros ifm gs.
    destruct (sortedGroups_spec (map_to_list ifm).*2) as (Hnodup & Hsorted & Hgroups & Hperm).
    split_and!; done.
  - intros kv Hempty. pose proof (revisions_of_test kv) as (? & ? & ?).
    split_and!; [done..|]. by apply sortInfos_of_test.
Qed.

(** [testSortInfos] on the empty store: the three results the test checks. *)
Example sortInfos_in_test :
  sortInfos (GetAllInfo (TestSortInfos.kv1 emptyKV)) =
    [TestSortInfos.withVersion TestSortInfos.i11 1 1] ∧
  sortInfos (GetAllInfo (TestSortInfos.kv2 emptyKV)) =
    [TestSortInfos.withVersion TestSortInfos.i11 1 1;
     TestSortInfos.withVersion TestSortInfos.i12 1 2] ∧
  sortInfos (GetAllInfo (TestSortInfos.kv4 emptyKV)) =
    [TestSortInfos.withVersion TestSortInfos.i12 1 2;
     TestSortInfos.withVersion TestSortInfos.i21 1 3;
     TestSortInfos.withVersion TestSortInfos.i11 2 4].
Proof. split_and!; by_compute. Qed.

End SortInfosFacts.
